(** * Verification of the Blog repository's image-conversion scripts

    Two independent scripts are embedded here:

    - [public/favicon/favicon_to_png.py] (module [Favicon]): the SVG
      content-bounds extractor and the square cropper / rasteriser;
    - [src/assets/projects/retargeting/compress_gif.py] (module
      [CompressGif]): the animated GIF resizer.

    The embeddings come first ([GifReport] holds the size report and the
    entry point of the GIF script); their properties follow in
    [FaviconFacts] and [CompressGifFacts], and runs on concrete inputs in
    [FaviconExamples] and [CompressGifExamples]. Further properties of the
    remaining code are in [FaviconMore], [CompressGifMore] and
    [ScannerFacts], with their runs in [MoreExamples] and
    [MoreGifExamples].

    Conventions of the embedding.

    - A Python [float] is idealised as an exact rational ([Qc], canonical
      rationals, so that equality is Leibniz equality): rounding, infinities
      and NaN are not modelled.
    - A Python [str] is a [string] whose characters are the code points
      below 256 (an [ascii] is one such code point, not a byte of an
      encoding): white space is what [str.isspace] accepts among them. Text
      with a code point of 256 or more is outside the embedding.
    - Python exceptions are an inductive type [exn]; a computation that may
      raise returns a [result].
    - Calls into external libraries (xml.etree, re, cairosvg, the builtin
      [float] and float formatting) are fields of the class [PyLibs]: the
      scripts are verified for every implementation of these collaborators.
    - A [dict] is a [gmap]; the file system is a [gmap] from paths to file
      contents; standard output is the list of messages printed so far. *)

From Stdlib Require Import Ascii String QArith Qcanon Lqa.
From stdpp Require Import base strings list gmap numbers pretty.

Local Open Scope Z_scope.

(** ** Exceptions and results *)

Inductive exn :=
  | ParseError            (* xml.etree.ElementTree.ParseError *)
  | ValueError
  | ZeroDivisionError
  | FileNotFoundError
  | UnidentifiedImageError
  | UnicodeDecodeError
  | LibraryError (code : nat).   (* any other exception of a collaborator *)

Global Instance exn_eq_dec : EqDecision exn.
Proof. solve_decision. Defined.

Inductive result (A : Type) :=
  | Ok (a : A)
  | Raise (e : exn).
Arguments Ok {A} a.
Arguments Raise {A} e.

Global Instance result_ret : MRet result := λ A a, Ok a.
Global Instance result_bind : MBind result := λ A B f m,
  match m with
  | Ok a => f a
  | Raise e => Raise e
  end.

(** Run [f] over a list from left to right and concatenate what it yields;
    the first exception aborts the loop (a [for] loop extending a list). *)
Fixpoint collect {A B} (f : A → result (list B)) (l : list A) : result (list B) :=
  match l with
  | [] => Ok []
  | a :: l' => ys ← f a; zs ← collect f l'; Ok (ys ++ zs)
  end.

(** [map(f, l)] consumed to the end. *)
Fixpoint map_result {A B} (f : A → result B) (l : list A) : result (list B) :=
  match l with
  | [] => Ok []
  | a :: l' => y ← f a; ys ← map_result f l'; Ok (y :: ys)
  end.

(** ** Python strings *)

Module PyStr.

(** [str.isspace] on the code points below 256: TAB, LF, VT, FF, CR, FS,
    GS, RS, US, the space, NEL (U+0085) and the no-break space (U+00A0).
    The pattern [\s] of [re] matches the same characters. *)
Definition is_space (c : ascii) : bool :=
  let n := nat_of_ascii c in
  ((9 <=? n)%nat && (n <=? 13)%nat) || ((28 <=? n)%nat && (n <=? 32)%nat)
  || (n =? 133)%nat || (n =? 160)%nat.

(** [s.endswith(suf)]. *)
Fixpoint endswith (s suf : string) : bool :=
  String.eqb s suf ||
  match s with
  | EmptyString => false
  | String _ s' => endswith s' suf
  end.

(** The text after the last ["}"] of [s], if [s] has one. *)
Fixpoint after_last_brace (s : string) : option string :=
  match s with
  | EmptyString => None
  | String c s' =>
      match after_last_brace s' with
      | Some t => Some t
      | None => if Ascii.eqb c "}" then Some s' else None
      end
  end.

(** [s.split()]: the maximal runs of non-blank characters. *)
Fixpoint split_aux (s : string) : string * list string :=
  match s with
  | EmptyString => (EmptyString, [])
  | String c s' =>
      let '(cur, toks) := split_aux s' in
      if is_space c
      then (EmptyString, if String.eqb cur "" then toks else cur :: toks)
      else (String c cur, toks)
  end.

Definition split (s : string) : list string :=
  let '(cur, toks) := split_aux s in
  if String.eqb cur "" then toks else cur :: toks.

Fixpoint lstrip (s : string) : string :=
  match s with
  | EmptyString => EmptyString
  | String c s' => if is_space c then lstrip s' else s
  end.

Fixpoint rstrip (s : string) : string :=
  match s with
  | EmptyString => EmptyString
  | String c s' =>
      let t := rstrip s' in
      if is_space c && String.eqb t "" then EmptyString else String c t
  end.

(** [s.strip()]. *)
Definition strip (s : string) : string := rstrip (lstrip s).

(** [s.replace(",", " ")]. *)
Fixpoint replace_comma (s : string) : string :=
  match s with
  | EmptyString => EmptyString
  | String c s' =>
      String (if Ascii.eqb c "," then " "%char else c) (replace_comma s')
  end.

(** Truth value of a string: non-empty. *)
Definition truthy (s : string) : bool := negb (String.eqb s "").

End PyStr.

(** ** Python [min] and [max]

    [min] keeps the first smallest item ([item < current] replaces), [max]
    the first largest ([item > current] replaces). *)

Module PyNum.

Definition min_step (m y : Qc) : Qc := if decide (y < m)%Qc then y else m.
Definition max_step (m y : Qc) : Qc := if decide (m < y)%Qc then y else m.

Definition min_from (x : Qc) (l : list Qc) : Qc := foldl min_step x l.
Definition max_from (x : Qc) (l : list Qc) : Qc := foldl max_step x l.

(** [max(a, b)]. *)
Definition max2 (a b : Qc) : Qc := max_from a [b].

(** [min(l)] and [max(l)]; [None] stands for the [ValueError] on an empty
    sequence. *)
Definition min_list (l : list Qc) : option Qc :=
  match l with
  | [] => None
  | x :: l' => Some (min_from x l')
  end.

Definition max_list (l : list Qc) : option Qc :=
  match l with
  | [] => None
  | x :: l' => Some (max_from x l')
  end.

End PyNum.

(** ** XML element trees *)

#[warnings="-register-all"]
Inductive Element :=
  | Elem (tag : string) (attrib : gmap string string) (children : list Element).

Module ET.

Definition tag (e : Element) : string :=
  match e with Elem t _ _ => t end.
Definition attrib (e : Element) : gmap string string :=
  match e with Elem _ a _ => a end.
Definition children (e : Element) : list Element :=
  match e with Elem _ _ cs => cs end.

(** [e.get(key)]. *)
Definition get (e : Element) (key : string) : option string :=
  attrib e !! key.

(** [e.set(key, value)]. *)
Definition set (key value : string) (e : Element) : Element :=
  match e with Elem t a cs => Elem t (<[key := value]> a) cs end.

(** [e.iter()]: the element itself, then its descendants in document
    order. *)
Fixpoint iter (e : Element) : list Element :=
  match e with
  | Elem _ _ cs => e :: flat_map iter cs
  end.

End ET.

(** ** External collaborators

    The scripts call the XML parser and serialiser, the regular-expression
    engine, the builtin [float] with its formatting, and the cairosvg
    rasteriser. They are taken as they come: any implementation. *)

Class PyLibs := {
  (** [ET.fromstring(text)]; raises [ParseError] on malformed markup. *)
  fromstring : string → result Element;
  (** [ET.tostring(root, encoding="unicode")]. *)
  tostring : Element → string;
  (** [float(s)] of a string: [None] is the [ValueError]. *)
  float_of_string : string → option Qc;
  (** [str(x)] of a float, as an f-string prints it. *)
  float_str : Qc → string;
  (** [re.sub(r"\s+", " ", s)]. *)
  re_sub_spaces : string → string;
  (** [re.findall(coordinate_pattern, s)]: the two groups of every match. *)
  re_findall_coordinates : string → list (string * string);
  (** The pixels cairosvg renders from a document at a requested size; it
      may raise. *)
  cairo_render : string → Z → Z → result string;
}.

(** A rasterised image. *)
Record Png := mkPng {
  png_width : Z;
  png_height : Z;
  png_pixels : string;
}.

Global Instance Png_eq_dec : EqDecision Png.
Proof. solve_decision. Defined.

(** * The favicon generator *)

Module Favicon.

Section WithLibs.
Context `{PyLibs}.

Local Open Scope Qc_scope.

Definition point : Type := Qc * Qc.
(** [(min_x, min_y, max_x, max_y)]. *)
Definition bounds : Type := Qc * Qc * Qc * Qc.

(** [float(s)]. *)
Definition float (s : string) : result Qc :=
  match float_of_string s with
  | Some x => Ok x
  | None => Raise ValueError
  end.

(** [cairosvg.svg2png(bytestring=..., output_width=..., output_height=...)]:
    the image has the requested pixel size. *)
Definition svg2png (bytestring : string) (output_width output_height : Z)
  : result Png :=
  px ← cairo_render bytestring output_width output_height;
  Ok (mkPng output_width output_height px).

Definition parse_path_data (path_data : string) : result (list point) :=
  let path_data := re_sub_spaces (PyStr.strip path_data) in
  let matches := re_findall_coordinates path_data in
  map_result (λ m : string * string,
                x ← float (fst m); y ← float (snd m); Ok (x, y)) matches.

(** [float(elem.get(key, 0))]. *)
Definition float_attr (elem : Element) (key : string) : result Qc :=
  match ET.get elem key with
  | Some s => float s
  | None => Ok (Qc_of_Z 0)
  end.

(** The name of an element without its namespace:
    [elem.tag.split("}")[-1] if "}" in elem.tag else elem.tag]. *)
Definition local_tag (elem : Element) : string :=
  default (ET.tag elem) (PyStr.after_last_brace (ET.tag elem)).

(** Body of the first loop of [get_svg_content_bounds]. *)
Definition path_points (path : Element) : result (list point) :=
  if PyStr.endswith (ET.tag path) "path" then
    match ET.get path "d" with
    | Some d_attr =>
        if PyStr.truthy d_attr then parse_path_data d_attr else Ok []
    | None => Ok []
    end
  else Ok [].

(** Body of the second loop of [get_svg_content_bounds]. *)
Definition shape_points (elem : Element) : result (list point) :=
  let tag := local_tag elem in
  if String.eqb tag "rect" then
    x ← float_attr elem "x";
    y ← float_attr elem "y";
    width ← float_attr elem "width";
    height ← float_attr elem "height";
    Ok [(x, y); (x + width, y + height)]
  else if String.eqb tag "circle" then
    cx ← float_attr elem "cx";
    cy ← float_attr elem "cy";
    r ← float_attr elem "r";
    Ok [(cx - r, cy - r); (cx + r, cy + r)]
  else if String.eqb tag "ellipse" then
    cx ← float_attr elem "cx";
    cy ← float_attr elem "cy";
    rx ← float_attr elem "rx";
    ry ← float_attr elem "ry";
    Ok [(cx - rx, cy - ry); (cx + rx, cy + ry)]
  else if String.eqb tag "line" then
    x1 ← float_attr elem "x1";
    y1 ← float_attr elem "y1";
    x2 ← float_attr elem "x2";
    y2 ← float_attr elem "y2";
    Ok [(x1, y1); (x2, y2)]
  else if String.eqb tag "polyline" || String.eqb tag "polygon" then
    let points_attr := default EmptyString (ET.get elem "points") in
    if PyStr.truthy points_attr
    then parse_path_data (PyStr.replace_comma points_attr)
    else Ok []
  else Ok [].

Definition default_bounds : bounds :=
  (Qc_of_Z 0, Qc_of_Z 0, Qc_of_Z 100, Qc_of_Z 100).

(** The fallback of [get_svg_content_bounds] when no point was found. *)
Definition viewbox_fallback (root : Element) : result bounds :=
  match ET.get root "viewBox" with
  | Some viewbox =>
      if PyStr.truthy viewbox then
        vs ← map_result float (PyStr.split viewbox);
        match vs with
        | [_; _; width; height] => Ok (Qc_of_Z 0, Qc_of_Z 0, width, height)
        | _ => Raise ValueError
        end
      else Ok default_bounds
  | None => Ok default_bounds
  end.

(** The bounding box of a non-empty list of points. *)
Definition points_bounds (p : point) (ps : list point) : bounds :=
  let x_coords := fst <$> ps in
  let y_coords := snd <$> ps in
  (PyNum.min_from (fst p) x_coords, PyNum.min_from (snd p) y_coords,
   PyNum.max_from (fst p) x_coords, PyNum.max_from (snd p) y_coords).

Definition get_svg_content_bounds (svg_content : string) : result bounds :=
  root ← fromstring svg_content;
  path_pts ← collect path_points (ET.iter root);
  shape_pts ← collect shape_points (ET.iter root);
  match path_pts ++ shape_pts with
  | [] => viewbox_fallback root
  | p :: ps => Ok (points_bounds p ps)
  end.

(** *** The world of the script: files and standard output *)

Inductive file :=
  | TextFile (content : string)
  | PngFile (image : Png).

(** One constructor per [print] of the script, with the values it
    formats. *)
Inductive message :=
  | MsgSvgNotFound (svg_path : string)
  | MsgContentBounds (min_x min_y max_x max_y : Qc)
  | MsgContentSize (content_width content_height : Qc)
  | MsgSquareBox (square_size : Qc)
  | MsgSvgDimensions (svg_width svg_height : string)
  | MsgAspectRatio (ratio : Qc)
  | MsgRendering (target_size render_width render_height : Z)
  | MsgGenerated (output_path : string) (width height : Z)
  | MsgAllGenerated
  | MsgGeneratedFiles
  | MsgFileName (size : Z)
  | MsgErrorProcessing (e : exn).

Record World := mkWorld {
  files : gmap string file;
  stdout : list message;
}.

(** A statement: it changes the world and returns or raises. What was
    printed and written before an exception stays. *)
Definition IO (A : Type) : Type := World → World * result A.

Definition io_ret {A} (a : A) : IO A := λ w, (w, Ok a).
Definition io_bind {A B} (m : IO A) (k : A → IO B) : IO B := λ w,
  match m w with
  | (w', Ok a) => k a w'
  | (w', Raise e) => (w', Raise e)
  end.
Definition io_lift {A} (r : result A) : IO A := λ w, (w, r).

(** [try: body except Exception as e: handler(e)]. *)
Definition io_try (body : IO unit) (handler : exn → IO unit) : IO unit := λ w,
  match body w with
  | (w', Ok tt) => (w', Ok tt)
  | (w', Raise e) => handler e w'
  end.

Definition print (m : message) : IO unit := λ w,
  (mkWorld (files w) (stdout w ++ [m]), Ok tt).

(** [with open(path, "wb") as f: f.write(data)]; opening for writing is
    taken to succeed. *)
Definition write_png (path : string) (data : Png) : IO unit := λ w,
  (mkWorld (<[path := PngFile data]> (files w)) (stdout w), Ok tt).

Global Instance io_mret : MRet IO := @io_ret.
Global Instance io_mbind : MBind IO := λ A B k m, io_bind m k.

(** [for x in l: body(x)]. *)
Fixpoint for_each {A} (l : list A) (body : A → IO unit) : IO unit :=
  match l with
  | [] => io_ret tt
  | x :: l' => body x ;; for_each l' body
  end.

(** *** Dimensions *)

Definition get_svg_dimensions (svg_content : string) : IO (Qc * Qc) :=
  b ← io_lift (get_svg_content_bounds svg_content);
  let '(min_x, min_y, max_x, max_y) := b in
  let content_width := max_x - min_x in
  let content_height := max_y - min_y in
  let square_size := PyNum.max2 content_width content_height in
  print (MsgContentBounds min_x min_y max_x max_y) ;;
  print (MsgContentSize content_width content_height) ;;
  print (MsgSquareBox square_size) ;;
  io_ret (square_size, square_size).

Definition calculate_render_size (svg_width svg_height : Qc) (target_size : Z)
  : Z * Z :=
  (target_size, target_size).

(** *** The square cropper *)

(** The crop window: origin and side of the square centred on the
    content (lines 199 to 217 of [svg_to_png]). *)
Definition crop_window (b : bounds) : Qc * Qc * Qc :=
  let '(min_x, min_y, max_x, max_y) := b in
  let content_width := max_x - min_x in
  let content_height := max_y - min_y in
  let square_size := PyNum.max2 content_width content_height in
  let center_x := min_x + content_width / Qc_of_Z 2 in
  let center_y := min_y + content_height / Qc_of_Z 2 in
  let new_min_x := center_x - square_size / Qc_of_Z 2 in
  let new_min_y := center_y - square_size / Qc_of_Z 2 in
  (new_min_x, new_min_y, square_size).

(** [f"{new_min_x} {new_min_y} {square_size} {square_size}"]. *)
Definition viewbox_text (win : Qc * Qc * Qc) : string :=
  let '(new_min_x, new_min_y, square_size) := win in
  float_str new_min_x +:+ " " +:+ float_str new_min_y +:+ " " +:+
  float_str square_size +:+ " " +:+ float_str square_size.

(** The document [svg_to_png] hands to the rasteriser. *)
Definition modified_root (svg_content : string) (width height : Z)
  : result Element :=
  b ← get_svg_content_bounds svg_content;
  root ← fromstring svg_content;
  let root := ET.set "viewBox" (viewbox_text (crop_window b)) root in
  let root := ET.set "width" (pretty width) root in
  let root := ET.set "height" (pretty height) root in
  Ok root.

Definition svg_to_png (svg_path output_path : string) (width height : Z)
    (svg_content : string) : IO unit :=
  root ← io_lift (modified_root svg_content width height);
  let modified_svg := tostring root in
  png_data ← io_lift (svg2png modified_svg width height);
  write_png output_path png_data ;;
  print (MsgGenerated output_path width height).

(** *** The entry point *)

Definition target_sizes : list Z := [32; 128; 256]%Z.

(** [directory / name]. *)
Definition path_join (directory name : string) : string :=
  directory +:+ "/" +:+ name.

Definition png_name (size : Z) : string :=
  "favicon-" +:+ pretty size +:+ "x" +:+ pretty size +:+ ".png".

(** Body of the rendering loop of [main]. *)
Definition render_target (current_dir svg_path svg_content : string)
    (svg_width svg_height : Qc) (target_size : Z) : IO unit :=
  let '(render_width, render_height) :=
    calculate_render_size svg_width svg_height target_size in
  let output_path := path_join current_dir (png_name target_size) in
  print (MsgRendering target_size render_width render_height) ;;
  svg_to_png svg_path output_path render_width render_height svg_content.

(** The [try] block of [main]. *)
Definition main_body (current_dir svg_path svg_content : string) : IO unit :=
  d ← get_svg_dimensions svg_content;
  let '(svg_width, svg_height) := d in
  print (MsgSvgDimensions (float_str svg_width) (float_str svg_height)) ;;
  (if decide (svg_height = Qc_of_Z 0)
   then io_lift (Raise ZeroDivisionError)
   else print (MsgAspectRatio (svg_width / svg_height))) ;;
  for_each target_sizes
    (render_target current_dir svg_path svg_content svg_width svg_height) ;;
  print MsgAllGenerated ;;
  print MsgGeneratedFiles ;;
  for_each target_sizes (λ size, print (MsgFileName size)).

(** [main()], run in the directory [current_dir] of the script. Reading a
    file that is not text raises outside the [try] block. *)
Definition main (current_dir : string) : IO unit := λ w,
  let svg_path := path_join current_dir "favicon.svg" in
  match files w !! svg_path with
  | None => print (MsgSvgNotFound svg_path) w
  | Some (PngFile _) => (w, Raise UnicodeDecodeError)
  | Some (TextFile svg_content) =>
      io_try (main_body current_dir svg_path svg_content)
             (λ e, print (MsgErrorProcessing e)) w
  end.

End WithLibs.

End Favicon.

(** * The GIF resizer *)

Module CompressGif.

(** A decoded frame: its size, mode, [info] dictionary and pixel data. *)
Record Frame := mkFrame {
  frame_width : Z;
  frame_height : Z;
  frame_mode : string;
  frame_info : gmap string Z;
  frame_pixels : string;
}.

(** An opened GIF: the [info] dictionary seen when the file is opened and
    the frames [ImageSequence.Iterator] yields. *)
Record Gif := mkGif {
  gif_info : gmap string Z;
  gif_frames : list Frame;
}.

(** The call [frames[0].save(path, **save_kwargs)]. *)
Record SaveCall := mkSaveCall {
  save_image : Frame;
  save_all : bool;
  append_images : list Frame;
  loop : Z;
  duration : list Z;
  disposal : Z;
  optimize : bool;
  transparency : option Z;
}.

(** The frames a save call hands to the encoder, in order. *)
Definition saved_frames (c : SaveCall) : list Frame :=
  save_image c :: append_images c.

(** Pillow, as the script uses it. Every call may raise. *)
Class Pillow := {
  (** [Image.open] on the bytes of a file, with its frame sequence. *)
  image_open : string → result Gif;
  (** [frame.convert("RGBA")]. *)
  convert_rgba : Frame → result Frame;
  (** [ImageOps.contain(image, size=(w, h), method=LANCZOS)]. *)
  contain : Frame → Z * Z → result Frame;
  (** [image.convert("P", palette=Image.Palette.ADAPTIVE)]. *)
  convert_adaptive : Frame → result Frame;
  (** The bytes the GIF encoder writes for a save call. *)
  encode_gif : SaveCall → result string;
  (** What a [save] that raises leaves at its path, given what was there
      before ([None]: no file). [save] opens the path for writing before it
      encodes, so what is left is for Pillow to say. *)
  failed_save : option string → SaveCall → option string;
}.

Section WithPillow.
Context `{Pillow}.

(** The file system: the bytes stored at each path. *)
Abbreviation FileSystem := (gmap string string).

(** Body of the loop over the frames, without the bookkeeping. *)
Definition resize_frame (max_width max_height : Z) (frame : Frame)
  : result Frame :=
  frame_rgba ← convert_rgba frame;
  resized_frame ← contain frame_rgba (max_width, max_height);
  convert_adaptive resized_frame.

(** The loop over the frames: the palettised frames and the durations. *)
Fixpoint process_frames (base_duration max_width max_height : Z)
    (source : list Frame) : result (list Frame * list Z) :=
  match source with
  | [] => Ok ([], [])
  | frame :: rest =>
      let frame_duration :=
        default base_duration (frame_info frame !! "duration") in
      palettized ← resize_frame max_width max_height frame;
      '(frames, durations) ← process_frames base_duration max_width max_height rest;
      Ok (palettized :: frames, frame_duration :: durations)
  end.

(** [save_kwargs], with the image the call is made on. *)
Definition save_kwargs (first : Frame) (rest : list Frame)
    (base_loop : Z) (durations : list Z) (base_disposal : Z)
    (transparency : option Z) : SaveCall :=
  {| save_image := first;
     save_all := true;
     append_images := rest;
     loop := base_loop;
     duration := durations;
     disposal := base_disposal;
     optimize := true;
     transparency := transparency |}.

Definition resize_gif (input_path output_path : string)
    (max_width max_height : Z) (fs : FileSystem)
  : FileSystem * result unit :=
  match fs !! input_path with
  | None => (fs, Raise FileNotFoundError)
  | Some data =>
      match image_open data with
      | Raise e => (fs, Raise e)
      | Ok base_gif =>
          let base_duration := default 100 (gif_info base_gif !! "duration") in
          let base_loop := default 0 (gif_info base_gif !! "loop") in
          let base_disposal := default 2 (gif_info base_gif !! "disposal") in
          let transparency := gif_info base_gif !! "transparency" in
          match process_frames base_duration max_width max_height
                  (gif_frames base_gif) with
          | Raise e => (fs, Raise e)
          | Ok ([], _) => (fs, Raise ValueError)
          | Ok (first :: rest, durations) =>
              let call := save_kwargs first rest base_loop durations
                            base_disposal transparency in
              match encode_gif call with
              | Ok bytes => (<[output_path := bytes]> fs, Ok tt)
              | Raise e =>
                  (partial_alter (λ previous, failed_save previous call)
                     output_path fs,
                   Raise e)
              end
          end
      end
  end.

(** The save call [resize_gif] makes for an opened GIF whose frames were
    resized to [frames]. *)
Definition save_call_of (base_gif : Gif) (first : Frame) (rest : list Frame)
  : SaveCall :=
  save_kwargs first rest
    (default 0 (gif_info base_gif !! "loop"))
    ((λ frame, default (default 100 (gif_info base_gif !! "duration"))
                       (frame_info frame !! "duration"))
       <$> gif_frames base_gif)
    (default 2 (gif_info base_gif !! "disposal"))
    (gif_info base_gif !! "transparency").

End WithPillow.

End CompressGif.

(** * The size report and the entry point of the GIF script *)

Module GifReport.

Import CompressGif.

(** One constructor per [print] of [display_size_report], with the values
    it formats. *)
Inductive report_line :=
  | LineOriginal (path : string)
  | LineResized (path : string)
  | LineDimensions (width height : Z)
  | LineSize (mebibytes : Qc).

(** [gif_image.size] of an opened image. *)
Class ImageSize := image_size : Gif → Z * Z.

Section WithPillow.
Context `{Pillow} `{ImageSize}.

(** [path.stat().st_size]: the number of bytes of a file. *)
Definition st_size (data : string) : Z := Z.of_nat (String.length data).

(** [bytes / (1024 * 1024)]. *)
Definition mebibytes (bytes : Z) : Qc := Q2Qc (bytes # 1048576).

(** The helper [_inspect] of [display_size_report]. *)
Definition _inspect (fs : gmap string string) (path : string)
  : result (Z * (Z * Z)) :=
  match fs !! path with
  | None => Raise FileNotFoundError
  | Some data =>
      gif_image ← image_open data;
      Ok (st_size data, image_size gif_image)
  end.

(** [display_size_report]: the files are read, the lines are appended to
    standard output. *)
Definition display_size_report (input_path output_path : string)
    (fs : gmap string string) (stdout : list report_line)
  : list report_line * result unit :=
  match _inspect fs input_path with
  | Raise e => (stdout, Raise e)
  | Ok (original_bytes, original_dims) =>
      match _inspect fs output_path with
      | Raise e => (stdout, Raise e)
      | Ok (resized_bytes, resized_dims) =>
          (stdout ++
           [LineOriginal input_path;
            LineDimensions (fst original_dims) (snd original_dims);
            LineSize (mebibytes original_bytes);
            LineResized output_path;
            LineDimensions (fst resized_dims) (snd resized_dims);
            LineSize (mebibytes resized_bytes)],
           Ok tt)
      end
  end.

(** [project_root / name]. *)
Definition in_root (project_root name : string) : string :=
  project_root +:+ "/" +:+ name.

(** [main()], for the directory [project_root] of the script: the file
    system and standard output after the run, and how it ended. *)
Definition main (project_root : string) (fs : gmap string string)
    (stdout : list report_line)
  : gmap string string * list report_line * result unit :=
  let original_gif := in_root project_root "retargeting-original.gif" in
  let resized_gif := in_root project_root "retargeting-abit.gif" in
  match resize_gif original_gif resized_gif 360 360 fs with
  | (fs', Raise e) => (fs', stdout, Raise e)
  | (fs', Ok _) =>
      let '(stdout', r) :=
        display_size_report original_gif resized_gif fs' stdout in
      (fs', stdout', r)
  end.

End WithPillow.

End GifReport.

(** * Concrete collaborators

    One implementation of [PyLibs], used to run the scripts on concrete
    documents: decimal literals for [float], a scanner for the coordinate
    pattern, a table of parsed documents for the XML parser and a given
    rendering function for cairosvg. *)

Module Demo.

Definition is_digit (c : ascii) : bool :=
  let n := nat_of_ascii c in (48 <=? n)%nat && (n <=? 57)%nat.

Definition digit_value (c : ascii) : Z := Z.of_nat (nat_of_ascii c) - 48.

(** The longest prefix of digits and what follows it. *)
Fixpoint span_digits (s : list ascii) : list ascii * list ascii :=
  match s with
  | c :: s' =>
      if is_digit c
      then let '(ds, rest) := span_digits s' in (c :: ds, rest)
      else ([], s)
  | [] => ([], [])
  end.

Definition digits_value (ds : list ascii) : Z :=
  foldl (λ acc c, 10 * acc + digit_value c) 0 ds.

(** Unsigned decimal literal [digits] or [digits.digits], all of [s]. *)
Definition unsigned_decimal (s : list ascii) : option Q :=
  match span_digits s with
  | ([], _) => None
  | (ip, []) => Some (inject_Z (digits_value ip))
  | (ip, c :: s') =>
      if Ascii.eqb c "." then
        match span_digits s' with
        | ([], _) => None
        | (fp, []) =>
            let den := 10 ^ Z.of_nat (length fp) in
            Some (Qmake (digits_value ip * den + digits_value fp)
                        (Z.to_pos den))
        | (_, _ :: _) => None
        end
      else None
  end.

(** [float(s)] for a decimal literal with an optional sign. *)
Definition decimal (s : string) : option Qc :=
  match list_ascii_of_string s with
  | c :: s' =>
      if Ascii.eqb c "-" then (λ q, Q2Qc (Qopp q)) <$> unsigned_decimal s'
      else if Ascii.eqb c "+" then Q2Qc <$> unsigned_decimal s'
      else Q2Qc <$> unsigned_decimal (c :: s')
  | [] => None
  end.

(** [str(x)] of an integral float: the integer followed by [.0]. Other
    values are printed as a fraction. *)
Definition show (x : Qc) : string :=
  let q := this x in
  if Pos.eqb (Qden q) 1
  then pretty (Qnum q) +:+ ".0"
  else pretty (Qnum q) +:+ "/" +:+ pretty (Z.pos (Qden q)).

(** [re.sub(r"\s+", " ", s)]. *)
Fixpoint collapse_spaces (in_run : bool) (s : string) : string :=
  match s with
  | EmptyString => EmptyString
  | String c s' =>
      if PyStr.is_space c
      then if in_run then collapse_spaces true s'
           else String " " (collapse_spaces true s')
      else String c (collapse_spaces false s')
  end.

(** A match of [-?\d+(?:\.\d+)?] at the head of [s]: the text matched and
    the rest. *)
Definition scan_number (s : list ascii) : option (list ascii * list ascii) :=
  let '(sign, s1) :=
    match s with
    | c :: s' => if Ascii.eqb c "-" then ([c], s') else ([], s)
    | [] => ([], s)
    end in
  match span_digits s1 with
  | ([], _) => None
  | (ip, c :: s2) =>
      if Ascii.eqb c "." then
        match span_digits s2 with
        | ([], _) => Some (sign ++ ip, c :: s2)
        | (fp, s3) => Some (sign ++ ip ++ c :: fp, s3)
        end
      else Some (sign ++ ip, c :: s2)
  | (ip, []) => Some (sign ++ ip, [])
  end.

(** A match of [[,\s]+] at the head of [s]: what follows it. *)
Fixpoint skip_separators (s : list ascii) : list ascii :=
  match s with
  | c :: s' =>
      if Ascii.eqb c "," || PyStr.is_space c then skip_separators s' else s
  | [] => []
  end.

(** A match of the coordinate pattern at the head of [s]: the two groups
    and the number of characters matched. *)
Definition match_coordinates (s : list ascii)
  : option (string * string * nat) :=
  '(n1, s1) ← scan_number s;
  let s2 := skip_separators s1 in
  if bool_decide (length s2 = length s1) then None else
  '(n2, s3) ← scan_number s2;
  Some (string_of_list_ascii n1, string_of_list_ascii n2,
        (length s - length s3)%nat).

(** [re.findall]: matches from left to right, each search resuming where
    the previous match ended; [skip] characters belong to that match. *)
Fixpoint findall_from (skip : nat) (s : list ascii) : list (string * string) :=
  match s with
  | [] => []
  | _ :: s' =>
      match skip with
      | S k => findall_from k s'
      | O =>
          match match_coordinates s with
          | Some (n1, n2, len) => (n1, n2) :: findall_from (pred len) s'
          | None => findall_from O s'
          end
      end
  end.

Definition findall_coordinates (s : string) : list (string * string) :=
  findall_from O (list_ascii_of_string s).

Definition dquote : string := String (ascii_of_nat 34) EmptyString.

(** A serialiser: start tag with the attributes, children, end tag. *)
Fixpoint serialise (e : Element) : string :=
  match e with
  | Elem t a cs =>
      "<" +:+ t +:+
      foldr (λ kv acc, " " +:+ fst kv +:+ "=" +:+ dquote +:+ snd kv +:+
                       dquote +:+ acc) EmptyString (map_to_list a) +:+
      ">" +:+ foldr (λ c acc, serialise c +:+ acc) EmptyString cs +:+
      "</" +:+ t +:+ ">"
  end.

(** The parser knows the documents of [docs]; any other text is
    malformed. *)
Definition parse (docs : list (string * Element)) (text : string)
  : result Element :=
  match list_find (λ d, fst d = text) docs with
  | Some (_, (_, root)) => Ok root
  | None => Raise ParseError
  end.

Definition libs (docs : list (string * Element))
    (render : string → Z → Z → result string) : PyLibs := {|
  fromstring := parse docs;
  tostring := serialise;
  float_of_string := decimal;
  float_str := show;
  re_sub_spaces := collapse_spaces false;
  re_findall_coordinates := findall_coordinates;
  cairo_render := render;
|}.

(** A rasteriser that always succeeds. *)
Definition render_blank (svg : string) (w h : Z) : result string :=
  Ok EmptyString.

(** *** Example documents *)

Definition attrs (l : list (string * string)) : gmap string string :=
  list_to_map l.

Definition circle_svg : string :=
  "<svg><circle cx='50' cy='50' r='40'/></svg>".
Definition circle : Element :=
  Elem "circle" (attrs [("cx", "50"); ("cy", "50"); ("r", "40")]) [].
Definition circle_root : Element := Elem "svg" ∅ [circle].

Definition path_svg : string :=
  "<svg><path d='M 10,20 L 30.5 -40 Z'/><polygon points='1,2 3,4'/></svg>".
Definition path_root : Element :=
  Elem "svg" ∅ [Elem "path" (attrs [("d", "M 10,20 L 30.5 -40 Z")]) [];
                Elem "polygon" (attrs [("points", "1,2 3,4")]) []].

(** A circle whose radius attribute is negative. *)
Definition negative_circle : Element :=
  Elem "circle" (attrs [("cx", "50"); ("cy", "50"); ("r", "-40")]) [].
Definition negative_circle_svg : string :=
  "<svg><circle cx='50' cy='50' r='-40'/></svg>".
Definition negative_circle_root : Element := Elem "svg" ∅ [negative_circle].

(** Two rects, in a group. *)
Definition rect_a : Element :=
  Elem "rect" (attrs [("x", "10"); ("y", "20"); ("width", "30"); ("height", "5")]) [].
Definition rect_b : Element :=
  Elem "rect" (attrs [("x", "-4"); ("y", "22"); ("width", "6"); ("height", "40")]) [].
Definition rects_svg : string :=
  "<svg><g><rect x='10' y='20' width='30' height='5'/><rect x='-4' y='22' width='6' height='40'/></g></svg>".
Definition rects_root : Element :=
  Elem "svg" ∅ [Elem "g" ∅ [rect_a; rect_b]].

(** A rect whose width and height attributes are negative. *)
Definition negative_rect : Element :=
  Elem "rect" (attrs [("x", "10"); ("y", "10"); ("width", "-5"); ("height", "-5")]) [].
Definition negative_rect_svg : string :=
  "<svg><rect x='10' y='10' width='-5' height='-5'/></svg>".
Definition negative_rect_root : Element := Elem "svg" ∅ [negative_rect].

(** No shape, and a [viewBox] whose origin is not zero. *)
Definition viewbox_svg : string := "<svg viewBox='10 10 80 80'></svg>".
Definition viewbox_root : Element :=
  Elem "svg" (attrs [("viewBox", "10 10 80 80")]) [].

Definition documents : list (string * Element) :=
  [(circle_svg, circle_root); (path_svg, path_root);
   (negative_circle_svg, negative_circle_root); (rects_svg, rects_root);
   (negative_rect_svg, negative_rect_root); (viewbox_svg, viewbox_root)].

(** A rasteriser that fails at width 128 and succeeds elsewhere. *)
Definition render_fail_128 (svg : string) (w h : Z) : result string :=
  if decide (w = 128) then Raise (LibraryError 1) else Ok EmptyString.

Definition libs_ok : PyLibs := libs documents render_blank.
Definition libs_fail_128 : PyLibs := libs documents render_fail_128.

End Demo.

(** * Properties of the Python primitives *)

Module PyFacts.

Import PyStr PyNum.

(** The last character of a string. *)
Fixpoint last_char (s : string) : option ascii :=
  match s with
  | EmptyString => None
  | String c EmptyString => Some c
  | String _ s' => last_char s'
  end.

Lemma last_char_cons c s : s ≠ EmptyString → last_char (String c s) = last_char s.
Proof. destruct s; [congruence | reflexivity]. Qed.

Lemma endswith_nonempty s suf :
  endswith s suf = true → suf ≠ EmptyString → s ≠ EmptyString.
Proof.
  intros Hs Hsuf ->. destruct suf; [congruence | discriminate].
Qed.

Lemma endswith_last_char s suf :
  endswith s suf = true → suf ≠ EmptyString → last_char s = last_char suf.
Proof.
  intros Hs Hsuf. induction s as [|c s IH].
  - exfalso. eapply endswith_nonempty; eauto.
  - cbn [endswith] in Hs. apply orb_true_iff in Hs as [Heq | Htl].
    + apply String.eqb_eq in Heq. by rewrite Heq.
    + rewrite last_char_cons by (eapply endswith_nonempty; eauto). auto.
Qed.

Lemma after_last_brace_last_char s t :
  after_last_brace s = Some t → t ≠ EmptyString → last_char s = last_char t.
Proof.
  revert t. induction s as [|c s IH]; intros t Hs Ht; [discriminate |].
  cbn [after_last_brace] in Hs.
  destruct (after_last_brace s) as [t' |] eqn:Hrec.
  - injection Hs as ->. rewrite last_char_cons; [by apply IH |].
    intros ->. discriminate.
  - destruct (Ascii.eqb c "}"); [| discriminate].
    injection Hs as ->. by apply last_char_cons.
Qed.

(** *** [min] and [max] *)

Local Open Scope Qc_scope.

Definition is_min (m : Qc) (l : list Qc) : Prop := m ∈ l ∧ ∀ y, y ∈ l → m ≤ y.
Definition is_max (m : Qc) (l : list Qc) : Prop := m ∈ l ∧ ∀ y, y ∈ l → y ≤ m.

Lemma min_step_spec m y :
  (min_step m y = m ∨ min_step m y = y) ∧ min_step m y ≤ m ∧ min_step m y ≤ y.
Proof.
  unfold min_step. destruct (decide (y < m)) as [Hlt | Hge].
  - split; [by right |]. split; [by apply Qclt_le_weak | reflexivity].
  - split; [by left |]. split; [reflexivity | by apply Qcnot_lt_le].
Qed.

Lemma max_step_spec m y :
  (max_step m y = m ∨ max_step m y = y) ∧ m ≤ max_step m y ∧ y ≤ max_step m y.
Proof.
  unfold max_step. destruct (decide (m < y)) as [Hlt | Hge].
  - split; [by right |]. split; [by apply Qclt_le_weak | reflexivity].
  - split; [by left |]. split; [reflexivity | by apply Qcnot_lt_le].
Qed.

Lemma min_from_spec x l : is_min (min_from x l) (x :: l).
Proof.
  unfold min_from. revert x. induction l as [|a l IH]; intros x; cbn [foldl].
  - split; [by left |]. intros y ->%list_elem_of_singleton. reflexivity.
  - destruct (IH (min_step x a)) as [Hin Hle].
    destruct (min_step_spec x a) as (Hcase & Hx & Ha). split.
    + apply elem_of_cons in Hin as [-> | Hin].
      * destruct Hcase as [-> | ->]; [by left | right; by left].
      * right; by right.
    + intros y Hy.
      assert (foldl min_step (min_step x a) l ≤ min_step x a) as Hm
        by (apply Hle; by left).
      apply elem_of_cons in Hy as [-> | Hy]; [by etrans |].
      apply elem_of_cons in Hy as [-> | Hy]; [by etrans |].
      apply Hle. by right.
Qed.

Lemma max_from_spec x l : is_max (max_from x l) (x :: l).
Proof.
  unfold max_from. revert x. induction l as [|a l IH]; intros x; cbn [foldl].
  - split; [by left |]. intros y ->%list_elem_of_singleton. reflexivity.
  - destruct (IH (max_step x a)) as [Hin Hle].
    destruct (max_step_spec x a) as (Hcase & Hx & Ha). split.
    + apply elem_of_cons in Hin as [-> | Hin].
      * destruct Hcase as [-> | ->]; [by left | right; by left].
      * right; by right.
    + intros y Hy.
      assert (max_step x a ≤ foldl max_step (max_step x a) l) as Hm
        by (apply Hle; by left).
      apply elem_of_cons in Hy as [-> | Hy]; [by etrans |].
      apply elem_of_cons in Hy as [-> | Hy]; [by etrans |].
      apply Hle. by right.
Qed.

Lemma is_min_unique m m' l : is_min m l → is_min m' l → m = m'.
Proof. intros [Hin Hle] [Hin' Hle']. apply (anti_symm Qcle); auto. Qed.

Lemma is_max_unique m m' l : is_max m l → is_max m' l → m = m'.
Proof. intros [Hin Hle] [Hin' Hle']. apply (anti_symm Qcle); auto. Qed.

(** [max(a, b)] is the larger of the two. *)
Lemma max2_spec a b : a ≤ max2 a b ∧ b ≤ max2 a b ∧ (max2 a b = a ∨ max2 a b = b).
Proof. destruct (max_step_spec a b) as (? & ? & ?). by repeat split. Qed.

(** *** Rational arithmetic: goals over [Qc] are moved to [Q]. *)

Lemma Qc_of_Z_this n : this (Qc_of_Z n) = inject_Z n.
Proof. reflexivity. Qed.

Ltac qc_to_q :=
  repeat match goal with
  | H : @eq Qc _ _ |- _ => apply (f_equal this) in H
  end;
  try (apply Qc_is_canon);
  unfold Qcle, Qclt, Qcdiv, Qcminus, Qcinv, Qcplus, Qcmult, Qcopp, Q2Qc in *;
  cbn [this] in *;
  rewrite ?Qred_correct, ?Qc_of_Z_this in *.

Ltac qc_lra := qc_to_q; lra.

(** *** Results *)

Lemma collect_app {A B} (f : A → result (list B)) l1 l2 ys zs :
  collect f l1 = Ok ys → collect f l2 = Ok zs →
  collect f (l1 ++ l2) = Ok (ys ++ zs).
Proof.
  revert ys. induction l1 as [|a l1 IH]; intros ys H1 H2; cbn in *.
  - by injection H1 as <-.
  - destruct (f a) as [y |]; [| discriminate]. cbn in *.
    destruct (collect f l1) as [ys' |]; [| discriminate]. cbn in *.
    injection H1 as <-. rewrite (IH ys' eq_refl H2). cbn.
    by rewrite (assoc_L (++)).
Qed.

Lemma collect_nil {A B} (f : A → result (list B)) l :
  Forall (λ a, f a = Ok []) l → collect f l = Ok [].
Proof. induction 1 as [|a l Ha _ IH]; cbn; [done |]. by rewrite Ha, IH. Qed.

(** *** Tokens of [split] *)

Fixpoint no_space (s : string) : bool :=
  match s with
  | EmptyString => true
  | String c s' => negb (is_space c) && no_space s'
  end.

(** A token: a non-empty string without white space. *)
Definition is_token (s : string) : bool :=
  negb (String.eqb s "") && no_space s.

Lemma append_empty s : s +:+ "" = s.
Proof.
  induction s as [| c s IH]; [done |].
  change (String c (s +:+ "") = String c s). by rewrite IH.
Qed.

Lemma split_aux_no_space s rest :
  no_space s = true →
  split_aux (s +:+ rest) = (s +:+ (split_aux rest).1, (split_aux rest).2).
Proof.
  induction s as [| c s IH]; intros Hs.
  - change ("" +:+ rest) with rest. by destruct (split_aux rest).
  - change (String c s +:+ rest) with (String c (s +:+ rest)).
    cbn in Hs. apply andb_true_iff in Hs as [Hc Hs].
    cbn [split_aux]. rewrite (IH Hs).
    apply negb_true_iff in Hc. by rewrite Hc.
Qed.

(** A token followed by a space is the first item of [split]. *)
Lemma split_token_space s rest :
  is_token s = true → split (s +:+ " " +:+ rest) = s :: split rest.
Proof.
  intros [Hne Hs]%andb_true_iff. unfold split.
  rewrite (split_aux_no_space _ _ Hs).
  change (" " +:+ rest) with (String " " rest). cbn [split_aux].
  destruct (split_aux rest) as [cur toks].
  change (is_space " ") with true. cbn [fst snd].
  rewrite append_empty. apply negb_true_iff in Hne. by rewrite Hne.
Qed.

Lemma split_token s : is_token s = true → split s = [s].
Proof.
  intros [Hne Hs]%andb_true_iff. unfold split.
  rewrite <- (append_empty s) at 1. rewrite (split_aux_no_space _ _ Hs).
  cbn [split_aux fst snd].
  rewrite append_empty. apply negb_true_iff in Hne. by rewrite Hne.
Qed.

End PyFacts.

(** * The bounds extractor *)

Module FaviconFacts.

Import PyStr PyNum PyFacts Favicon.

Section WithLibs.
Context `{PyLibs}.

Local Open Scope Qc_scope.

Definition shape_names : list string :=
  ["rect"; "circle"; "ellipse"; "line"; "polyline"; "polygon"].

(** The elements [get_svg_content_bounds] reads points from: a tag that
    ends in [path], or one of the basic shapes. *)
Definition is_shape (e : Element) : bool :=
  endswith (ET.tag e) "path" || bool_decide (local_tag e ∈ shape_names).

Lemma local_tag_last_char e :
  local_tag e ≠ EmptyString → last_char (ET.tag e) = last_char (local_tag e).
Proof.
  unfold local_tag. destruct (after_last_brace (ET.tag e)) as [t|] eqn:Ht; cbn.
  - intros Hne. by apply after_last_brace_last_char.
  - done.
Qed.

(** A basic shape is not taken for a path by the first loop. *)
Lemma basic_shape_not_path e name :
  local_tag e = name → name ∈ shape_names → endswith (ET.tag e) "path" = false.
Proof.
  intros Htag Hin. destruct (endswith (ET.tag e) "path") eqn:Hends; [| done].
  apply endswith_last_char in Hends; [| done].
  rewrite local_tag_last_char, Htag in Hends.
  - unfold shape_names in Hin. set_unfold in Hin.
    destruct Hin as [-> | [-> | [-> | [-> | [-> | [-> | []]]]]]]; discriminate.
  - rewrite Htag. intros ->. unfold shape_names in Hin. set_unfold in Hin.
    intuition discriminate.
Qed.

Lemma path_points_basic_shape e name :
  local_tag e = name → name ∈ shape_names → path_points e = Ok [].
Proof.
  intros Htag Hin. unfold path_points.
  by rewrite (basic_shape_not_path e name Htag Hin).
Qed.

Lemma non_shape_points e :
  is_shape e = false → path_points e = Ok [] ∧ shape_points e = Ok [].
Proof.
  unfold is_shape. intros [Hpath Hname]%orb_false_iff.
  apply bool_decide_eq_false in Hname. split.
  - unfold path_points. by rewrite Hpath.
  - unfold shape_points, shape_names in *. set_unfold in Hname.
    repeat match goal with
    | |- context [String.eqb ?a ?b] =>
        destruct (String.eqb_spec a b); [exfalso; naive_solver |]
    end.
    done.
Qed.

Lemma non_shapes_points es :
  Forall (λ e, is_shape e = false) es →
  collect path_points es = Ok [] ∧ collect shape_points es = Ok [].
Proof.
  intros Hall. split; apply collect_nil; eapply Forall_impl; eauto;
    intros e He; by apply non_shape_points.
Qed.

Lemma circle_points c cx cy r :
  local_tag c = "circle" →
  float_attr c "cx" = Ok cx → float_attr c "cy" = Ok cy →
  float_attr c "r" = Ok r →
  shape_points c = Ok [(cx - r, cy - r); (cx + r, cy + r)].
Proof. intros Htag Hx Hy Hr. unfold shape_points. by rewrite Htag, Hx, Hy, Hr. Qed.

(** The bounding box of a document with a single circle, whatever the
    sign of its radius: the two corner points, put in order. *)
Lemma single_circle_bounds svg_content root pre c post cx cy r :
  fromstring svg_content = Ok root →
  ET.iter root = pre ++ c :: post →
  Forall (λ e, is_shape e = false) (pre ++ post) →
  local_tag c = "circle" →
  float_attr c "cx" = Ok cx → float_attr c "cy" = Ok cy →
  float_attr c "r" = Ok r →
  get_svg_content_bounds svg_content =
    Ok (points_bounds (cx - r, cy - r) [(cx + r, cy + r)]).
Proof.
  intros Hroot Hiter [Hpre Hpost]%Forall_app Htag Hx Hy Hr.
  unfold get_svg_content_bounds. rewrite Hroot. cbn. rewrite Hiter.
  destruct (non_shapes_points pre Hpre) as [Hp1 Hs1].
  destruct (non_shapes_points post Hpost) as [Hp2 Hs2].
  rewrite (collect_app path_points pre (c :: post) [] []); [| done |]; cycle 1.
  { cbn. rewrite (path_points_basic_shape c "circle" Htag) by set_solver.
    cbn. by rewrite Hp2. }
  cbn.
  rewrite (collect_app shape_points pre (c :: post) []
             [(cx - r, cy - r); (cx + r, cy + r)]); [done | done |].
  cbn. rewrite (circle_points c cx cy r) by done. cbn. by rewrite Hs2.
Qed.

(** The corner points of a circle of non-negative radius are in order. *)
Lemma circle_corners_ordered cx cy r :
  0 ≤ r →
  points_bounds (cx - r, cy - r) [(cx + r, cy + r)] =
    (cx - r, cy - r, cx + r, cy + r).
Proof.
  intros Hpos.
  unfold points_bounds, min_from, max_from, min_step, max_step. cbn.
  assert (∀ z : Qc, z - r ≤ z + r) as Hle by (intros z; qc_lra).
  repeat f_equal.
  - destruct (decide (cx + r < cx - r)) as [Hlt | _]; [| done].
    exfalso. by apply (Qcle_not_lt _ _ (Hle cx)).
  - destruct (decide (cy + r < cy - r)) as [Hlt | _]; [| done].
    exfalso. by apply (Qcle_not_lt _ _ (Hle cy)).
  - destruct (decide (cx - r < cx + r)) as [_ | Hge]; [done |].
    apply (anti_symm Qcle); [apply Hle | by apply Qcnot_lt_le].
  - destruct (decide (cy - r < cy + r)) as [_ | Hge]; [done |].
    apply (anti_symm Qcle); [apply Hle | by apply Qcnot_lt_le].
Qed.

(** C5: for a document whose only shape element is a circle of centre
    [(cx, cy)] and radius [r], a radius being a number that is not
    negative, the extractor returns exactly
    [(cx − r, cy − r, cx + r, cy + r)]. *)
Theorem circle_bounds svg_content root pre c post cx cy r :
  fromstring svg_content = Ok root →
  ET.iter root = pre ++ c :: post →
  Forall (λ e, is_shape e = false) (pre ++ post) →
  local_tag c = "circle" →
  float_attr c "cx" = Ok cx → float_attr c "cy" = Ok cy →
  float_attr c "r" = Ok r →
  0 ≤ r →
  get_svg_content_bounds svg_content = Ok (cx - r, cy - r, cx + r, cy + r).
Proof.
  intros Hroot Hiter Hothers Htag Hx Hy Hr Hpos.
  rewrite (single_circle_bounds _ _ _ _ _ _ _ _ Hroot Hiter Hothers Htag Hx Hy Hr).
  by rewrite circle_corners_ordered.
Qed.

(** *** Documents made of rects *)

Record rect := mkRect {
  rect_x : Qc;
  rect_y : Qc;
  rect_width : Qc;
  rect_height : Qc;
}.

(** The two corner points the extractor takes from a rect. *)
Definition rect_corners (r : rect) : list point :=
  [(rect_x r, rect_y r); (rect_x r + rect_width r, rect_y r + rect_height r)].

(** [rects_of es rs]: the shape elements of [es] are rects, and [rs] are
    their attributes in document order. *)
Inductive rects_of : list Element → list rect → Prop :=
  | rects_of_nil : rects_of [] []
  | rects_of_other e es rs :
      is_shape e = false → rects_of es rs → rects_of (e :: es) rs
  | rects_of_rect e es x y width height rs :
      local_tag e = "rect" →
      float_attr e "x" = Ok x → float_attr e "y" = Ok y →
      float_attr e "width" = Ok width → float_attr e "height" = Ok height →
      rects_of es rs →
      rects_of (e :: es) (mkRect x y width height :: rs).

Lemma rect_points e x y width height :
  local_tag e = "rect" →
  float_attr e "x" = Ok x → float_attr e "y" = Ok y →
  float_attr e "width" = Ok width → float_attr e "height" = Ok height →
  shape_points e = Ok (rect_corners (mkRect x y width height)).
Proof.
  intros Htag Hx Hy Hw Hh. unfold shape_points.
  by rewrite Htag, Hx, Hy, Hw, Hh.
Qed.

Lemma rects_of_points es rs :
  rects_of es rs →
  collect path_points es = Ok [] ∧
  collect shape_points es = Ok (flat_map rect_corners rs).
Proof.
  induction 1 as [| e es rs He _ [IHp IHs]
                  | e es x y w h rs Htag Hx Hy Hw Hh _ [IHp IHs]]; cbn.
  - done.
  - destruct (non_shape_points e He) as [-> ->]. cbn. by rewrite IHp, IHs.
  - rewrite (path_points_basic_shape e "rect" Htag) by set_solver.
    rewrite (rect_points e x y w h) by done. cbn. by rewrite IHp, IHs.
Qed.

Lemma elem_of_corner_xs v rs :
  v ∈ fst <$> flat_map rect_corners rs ↔
  ∃ r, r ∈ rs ∧ (v = rect_x r ∨ v = rect_x r + rect_width r).
Proof.
  induction rs as [|r rs IH]; cbn.
  - split; [intros []%elem_of_nil | intros (r & []%elem_of_nil & _)].
  - rewrite !elem_of_cons, IH. clear IH. split.
    + intros [-> | [-> | (r' & Hin & Hv)]].
      * exists r. split; [by left | by left].
      * exists r. split; [by left | by right].
      * exists r'. split; [by right | done].
    + intros (r' & [-> | Hin]%elem_of_cons & Hv); [tauto |].
      right; right. by exists r'.
Qed.

Lemma elem_of_corner_ys v rs :
  v ∈ snd <$> flat_map rect_corners rs ↔
  ∃ r, r ∈ rs ∧ (v = rect_y r ∨ v = rect_y r + rect_height r).
Proof.
  induction rs as [|r rs IH]; cbn.
  - split; [intros []%elem_of_nil | intros (r & []%elem_of_nil & _)].
  - rewrite !elem_of_cons, IH. clear IH. split.
    + intros [-> | [-> | (r' & Hin & Hv)]].
      * exists r. split; [by left | by left].
      * exists r. split; [by left | by right].
      * exists r'. split; [by right | done].
    + intros (r' & [-> | Hin]%elem_of_cons & Hv); [tauto |].
      right; right. by exists r'.
Qed.

(** With sizes that are not negative, the least of all corner
    coordinates is the least origin, and the greatest is the greatest far
    corner. *)
Lemma is_min_corners (lo size : rect → Qc) (all : list Qc) rs m :
  (∀ v, v ∈ all ↔ ∃ r, r ∈ rs ∧ (v = lo r ∨ v = lo r + size r)) →
  (∀ r, r ∈ rs → 0 ≤ size r) →
  is_min m all → is_min m (lo <$> rs).
Proof.
  intros Hall Hpos [Hin Hle]. split.
  - apply Hall in Hin as (r & Hr & [-> | ->]).
    + apply list_elem_of_fmap. by exists r.
    + assert (lo r + size r = lo r) as ->.
      { apply (anti_symm Qcle).
        - apply Hle, Hall. exists r. split; [done | by left].
        - specialize (Hpos r Hr). qc_lra. }
      apply list_elem_of_fmap. by exists r.
  - intros y (r & -> & Hr)%list_elem_of_fmap.
    apply Hle, Hall. exists r. split; [done | by left].
Qed.

Lemma is_max_corners (lo size : rect → Qc) (all : list Qc) rs m :
  (∀ v, v ∈ all ↔ ∃ r, r ∈ rs ∧ (v = lo r ∨ v = lo r + size r)) →
  (∀ r, r ∈ rs → 0 ≤ size r) →
  is_max m all → is_max m ((λ r, lo r + size r) <$> rs).
Proof.
  intros Hall Hpos [Hin Hle]. split.
  - apply Hall in Hin as (r & Hr & [-> | ->]).
    + assert (lo r = lo r + size r) as Heq.
      { apply (anti_symm Qcle).
        - specialize (Hpos r Hr). qc_lra.
        - apply Hle, Hall. exists r. split; [done | by right]. }
      apply list_elem_of_fmap. by exists r.
    + apply list_elem_of_fmap. by exists r.
  - intros y (r & -> & Hr)%list_elem_of_fmap.
    apply Hle, Hall. exists r. split; [done | by right].
Qed.

(** The box of a document of rects is the box of their corner points. *)
Lemma rects_bounds_corners svg_content root rs :
  fromstring svg_content = Ok root →
  rects_of (ET.iter root) rs →
  rs ≠ [] →
  ∃ min_x min_y max_x max_y,
    get_svg_content_bounds svg_content = Ok (min_x, min_y, max_x, max_y) ∧
    is_min min_x (fst <$> flat_map rect_corners rs) ∧
    is_min min_y (snd <$> flat_map rect_corners rs) ∧
    is_max max_x (fst <$> flat_map rect_corners rs) ∧
    is_max max_y (snd <$> flat_map rect_corners rs).
Proof.
  intros Hroot [Hp Hs]%rects_of_points Hne.
  unfold get_svg_content_bounds. rewrite Hroot. cbn. rewrite Hp, Hs. cbn.
  destruct rs as [|r rs]; [done |]. cbn [flat_map rect_corners app].
  eexists _, _, _, _. split; [reflexivity |].
  cbn [fmap list_fmap fst snd].
  repeat split; first [apply min_from_spec | apply max_from_spec].
Qed.

(** C6: for a document whose shape elements are rects (at least one, so
    that there is a least [x]; a width and a height being numbers that are
    not negative), the box is the least [x], the least [y], the greatest
    [x + width] and the greatest [y + height]; it contains the bounds of
    every rect. *)
Theorem rect_bounds svg_content root rs :
  fromstring svg_content = Ok root →
  rects_of (ET.iter root) rs →
  rs ≠ [] →
  Forall (λ r, 0 ≤ rect_width r ∧ 0 ≤ rect_height r) rs →
  ∃ min_x min_y max_x max_y,
    get_svg_content_bounds svg_content = Ok (min_x, min_y, max_x, max_y) ∧
    is_min min_x (rect_x <$> rs) ∧
    is_min min_y (rect_y <$> rs) ∧
    is_max max_x ((λ r, rect_x r + rect_width r) <$> rs) ∧
    is_max max_y ((λ r, rect_y r + rect_height r) <$> rs) ∧
    Forall (λ r, min_x ≤ rect_x r ∧ min_y ≤ rect_y r ∧
                 rect_x r + rect_width r ≤ max_x ∧
                 rect_y r + rect_height r ≤ max_y) rs.
Proof.
  intros Hroot Hrects Hne Hpos.
  destruct (rects_bounds_corners _ _ _ Hroot Hrects Hne)
    as (min_x & min_y & max_x & max_y & Heq & Hmx & Hmy & HMx & HMy).
  rewrite Forall_forall in Hpos.
  exists min_x, min_y, max_x, max_y. split; [done |].
  assert (is_min min_x (rect_x <$> rs)) as Hx.
  { eapply (is_min_corners rect_x rect_width); eauto using elem_of_corner_xs.
    intros r Hr. by apply Hpos. }
  assert (is_min min_y (rect_y <$> rs)) as Hy.
  { eapply (is_min_corners rect_y rect_height); eauto using elem_of_corner_ys.
    intros r Hr. by apply Hpos. }
  assert (is_max max_x ((λ r, rect_x r + rect_width r) <$> rs)) as HX.
  { eapply (is_max_corners rect_x rect_width); eauto using elem_of_corner_xs.
    intros r Hr. by apply Hpos. }
  assert (is_max max_y ((λ r, rect_y r + rect_height r) <$> rs)) as HY.
  { eapply (is_max_corners rect_y rect_height); eauto using elem_of_corner_ys.
    intros r Hr. by apply Hpos. }
  repeat split; try (by apply Hx || by apply Hy || by apply HX || by apply HY).
  apply Forall_forall. intros r Hr. repeat split.
  - apply Hx, list_elem_of_fmap. by exists r.
  - apply Hy, list_elem_of_fmap. by exists r.
  - apply HX, list_elem_of_fmap. by exists r.
  - apply HY, list_elem_of_fmap. by exists r.
Qed.

(** *** The fallback *)

Lemma fallback_without_viewbox svg_content root :
  fromstring svg_content = Ok root →
  collect path_points (ET.iter root) = Ok [] →
  collect shape_points (ET.iter root) = Ok [] →
  ET.get root "viewBox" = None →
  get_svg_content_bounds svg_content = Ok default_bounds.
Proof.
  intros Hroot Hp Hs Hvb. unfold get_svg_content_bounds.
  rewrite Hroot. cbn. rewrite Hp, Hs. cbn. unfold viewbox_fallback.
  by rewrite Hvb.
Qed.

(** With a [viewBox] of four numbers the fallback keeps its width and
    height and puts the origin at zero. *)
Lemma fallback_with_viewbox svg_content root viewbox a b c d x y width height :
  fromstring svg_content = Ok root →
  collect path_points (ET.iter root) = Ok [] →
  collect shape_points (ET.iter root) = Ok [] →
  ET.get root "viewBox" = Some viewbox →
  split viewbox = [a; b; c; d] →
  float a = Ok x → float b = Ok y → float c = Ok width → float d = Ok height →
  get_svg_content_bounds svg_content =
    Ok (Qc_of_Z 0, Qc_of_Z 0, width, height).
Proof.
  intros Hroot Hp Hs Hvb Hsplit Ha Hb Hc Hd. unfold get_svg_content_bounds.
  rewrite Hroot. cbn. rewrite Hp, Hs. cbn. unfold viewbox_fallback.
  rewrite Hvb. destruct (truthy viewbox) eqn:Htruthy.
  - rewrite Hsplit. cbn. by rewrite Ha, Hb, Hc, Hd.
  - apply negb_false_iff, String.eqb_eq in Htruthy. by subst viewbox.
Qed.

(** *** The crop window *)

(** The four numbers of a [viewBox] text, [min-x min-y width height],
    read the way line 118 of the script reads them:
    [map(float, viewbox.split())]. *)
Definition read_viewbox (text : string) : result (Qc * Qc * Qc * Qc) :=
  vs ← map_result float (PyStr.split text);
  match vs with
  | [x; y; width; height] => Ok (x, y, width, height)
  | _ => Raise ValueError
  end.

(** The box a [viewBox] covers. *)
Definition viewbox_span (viewbox : Qc * Qc * Qc * Qc) : bounds :=
  let '(x, y, width, height) := viewbox in (x, y, x + width, y + height).

(** [str(x)] is one token, which [float] reads back as [x]. *)
Definition prints_back (x : Qc) : Prop :=
  is_token (float_str x) = true ∧ float_of_string (float_str x) = Some x.

Lemma read_viewbox_text x y s :
  prints_back x → prints_back y → prints_back s →
  read_viewbox (viewbox_text (x, y, s)) = Ok (x, y, s, s).
Proof.
  intros [Tx Fx] [Ty Fy] [Ts Fs]. unfold read_viewbox, viewbox_text.
  rewrite !split_token_space by done. rewrite split_token by done.
  cbn. unfold float. by rewrite Fx, Fy, Fs.
Qed.

(** The document with the three attributes [svg_to_png] sets. *)
Definition cropped (root : Element) (b : bounds) (width height : Z) : Element :=
  ET.set "height" (pretty height)
    (ET.set "width" (pretty width)
       (ET.set "viewBox" (viewbox_text (crop_window b)) root)).

Lemma cropped_viewbox root b width height :
  ET.get (cropped root b width height) "viewBox" =
    Some (viewbox_text (crop_window b)).
Proof.
  destruct root as [t a cs]. unfold cropped, ET.get. cbn.
  rewrite !lookup_insert_ne by done. apply lookup_insert_eq.
Qed.

Lemma cropped_size root b width height :
  ET.get (cropped root b width height) "width" = Some (pretty width) ∧
  ET.get (cropped root b width height) "height" = Some (pretty height).
Proof.
  destruct root as [t a cs]. unfold cropped, ET.get. cbn. split.
  - rewrite lookup_insert_ne by done. apply lookup_insert_eq.
  - apply lookup_insert_eq.
Qed.

Lemma bounds_parsed svg_content b :
  get_svg_content_bounds svg_content = Ok b →
  ∃ root, fromstring svg_content = Ok root.
Proof.
  unfold get_svg_content_bounds.
  destruct (fromstring svg_content) as [root |]; [eauto | discriminate].
Qed.

Lemma modified_root_cropped svg_content b root width height :
  get_svg_content_bounds svg_content = Ok b →
  fromstring svg_content = Ok root →
  modified_root svg_content width height = Ok (cropped root b width height).
Proof. intros Hb Hroot. unfold modified_root. by rewrite Hb, Hroot. Qed.

(** What one call of [svg_to_png] does to the world. *)
Definition written (w : World) (output_path : string) (image : Png) : World :=
  mkWorld (<[output_path := PngFile image]> (files w))
          (stdout w ++ [MsgGenerated output_path (png_width image)
                                     (png_height image)]).

(** The image [svg_to_png] renders, as a function of the document and
    the size alone. *)
Definition rendered (svg_content : string) (width height : Z) : result Png :=
  root ← modified_root svg_content width height;
  svg2png (tostring root) width height.

Lemma svg2png_size text width height image :
  svg2png text width height = Ok image →
  png_width image = width ∧ png_height image = height.
Proof.
  unfold svg2png. destruct (cairo_render text width height); [| discriminate].
  cbn. by intros [= <-].
Qed.

Lemma svg_to_png_run svg_path output_path width height svg_content w :
  svg_to_png svg_path output_path width height svg_content w =
    match rendered svg_content width height with
    | Ok image => (written w output_path image, Ok tt)
    | Raise e => (w, Raise e)
    end.
Proof.
  unfold svg_to_png, rendered, mbind, io_mbind, io_bind, io_lift.
  destruct (modified_root svg_content width height) as [root |]; cbn; [| done].
  destruct (svg2png (tostring root) width height) as [image |] eqn:Himg; [| done].
  destruct (svg2png_size _ _ _ _ Himg) as [Hw Hh].
  unfold written. rewrite Hw, Hh. reflexivity.
Qed.

(** C7: for every box the extractor returns, [svg_to_png] writes a
    [viewBox] whose four numbers are, read back from its text, the origin
    [new_min_x], [new_min_y] and twice the side [square_size], where
    [square_size] is the larger of the content width and height and the
    origin is, on each axis, the centre of the box ([min + extent / 2])
    minus [square_size / 2]; the document with that [viewBox] is the one
    handed to the rasteriser. The numbers written are taken to print as
    one token each that [float] reads back. *)
Theorem crop_window_centred svg_content width height min_x min_y max_x max_y :
  let content_width := max_x - min_x in
  let content_height := max_y - min_y in
  let square_size := max2 content_width content_height in
  let center_x := min_x + content_width / Qc_of_Z 2 in
  let center_y := min_y + content_height / Qc_of_Z 2 in
  let new_min_x := center_x - square_size / Qc_of_Z 2 in
  let new_min_y := center_y - square_size / Qc_of_Z 2 in
  get_svg_content_bounds svg_content = Ok (min_x, min_y, max_x, max_y) →
  prints_back new_min_x → prints_back new_min_y → prints_back square_size →
  (content_width ≤ square_size ∧ content_height ≤ square_size ∧
   (square_size = content_width ∨ square_size = content_height)) ∧
  ∃ root text,
    modified_root svg_content width height = Ok root ∧
    ET.get root "viewBox" = Some text ∧
    read_viewbox text = Ok (new_min_x, new_min_y, square_size, square_size) ∧
    ∀ svg_path output_path w,
      svg_to_png svg_path output_path width height svg_content w =
        match svg2png (tostring root) width height with
        | Ok image => (written w output_path image, Ok tt)
        | Raise e => (w, Raise e)
        end.
Proof.
  intros content_width content_height square_size center_x center_y
    new_min_x new_min_y Hb Hx Hy Hs.
  destruct (bounds_parsed _ _ Hb) as [root Hroot].
  pose proof (modified_root_cropped _ _ _ width height Hb Hroot) as Hmod.
  split.
  { destruct (max2_spec content_width content_height) as (? & ? & ?). done. }
  exists (cropped root (min_x, min_y, max_x, max_y) width height),
         (viewbox_text (new_min_x, new_min_y, square_size)).
  split; [done |]. split; [apply cropped_viewbox |]. split.
  - by apply read_viewbox_text.
  - intros svg_path output_path w. rewrite svg_to_png_run.
    unfold rendered. by rewrite Hmod.
Qed.

(** C1: for a document whose only shape is
    [<circle cx="50" cy="50" r="40"/>], [svg_to_png] at size 128 rewrites
    the [viewBox] to the text [10.0 10.0 80.0 80.0], the window of origin
    (10, 10), 80 wide and 80 high, which spans (10, 10) to (90, 90), sets
    [width] and [height] to 128, and writes the PNG the rasteriser returns
    for an output size of 128 by 128. The reading and printing of the
    numbers involved is taken to be Python's. *)
Theorem circle_example_128 svg_content root pre c post :
  fromstring svg_content = Ok root →
  ET.iter root = pre ++ c :: post →
  Forall (λ e, is_shape e = false) (pre ++ post) →
  local_tag c = "circle" →
  ET.get c "cx" = Some "50"%string →
  ET.get c "cy" = Some "50"%string →
  ET.get c "r" = Some "40"%string →
  float_of_string "50" = Some (Qc_of_Z 50) →
  float_of_string "40" = Some (Qc_of_Z 40) →
  float_str (Qc_of_Z 10) = "10.0"%string →
  float_str (Qc_of_Z 80) = "80.0"%string →
  float_of_string "10.0" = Some (Qc_of_Z 10) →
  float_of_string "80.0" = Some (Qc_of_Z 80) →
  ∃ root',
    modified_root svg_content 128 128 = Ok root' ∧
    ET.get root' "viewBox" = Some "10.0 10.0 80.0 80.0"%string ∧
    read_viewbox "10.0 10.0 80.0 80.0" =
      Ok (Qc_of_Z 10, Qc_of_Z 10, Qc_of_Z 80, Qc_of_Z 80) ∧
    viewbox_span (Qc_of_Z 10, Qc_of_Z 10, Qc_of_Z 80, Qc_of_Z 80) =
      (Qc_of_Z 10, Qc_of_Z 10, Qc_of_Z 90, Qc_of_Z 90) ∧
    ET.get root' "width" = Some "128"%string ∧
    ET.get root' "height" = Some "128"%string ∧
    ∀ svg_path output_path w pixels,
      cairo_render (tostring root') 128 128 = Ok pixels →
      svg_to_png svg_path output_path 128 128 svg_content w =
        (written w output_path (mkPng 128 128 pixels), Ok tt) ∧
      files (written w output_path (mkPng 128 128 pixels)) !! output_path =
        Some (PngFile (mkPng 128 128 pixels)).
Proof.
  intros Hroot Hiter Hothers Htag Hcx Hcy Hr H50 H40 S10 S80 F10 F80.
  assert (get_svg_content_bounds svg_content =
            Ok (Qc_of_Z 50 - Qc_of_Z 40, Qc_of_Z 50 - Qc_of_Z 40,
                Qc_of_Z 50 + Qc_of_Z 40, Qc_of_Z 50 + Qc_of_Z 40)) as Hb.
  { rewrite (single_circle_bounds svg_content root pre c post
               (Qc_of_Z 50) (Qc_of_Z 50) (Qc_of_Z 40)); try done.
    - unfold float_attr, float. by rewrite Hcx, H50.
    - unfold float_attr, float. by rewrite Hcy, H50.
    - unfold float_attr, float. by rewrite Hr, H40. }
  pose proof (modified_root_cropped _ _ _ 128 128 Hb Hroot) as Hmod.
  eexists. split; [exact Hmod |].
  split; [| split; [| split; [| split; [| split]]]].
  - rewrite cropped_viewbox. f_equal.
    assert (crop_window (Qc_of_Z 50 - Qc_of_Z 40, Qc_of_Z 50 - Qc_of_Z 40,
                         Qc_of_Z 50 + Qc_of_Z 40, Qc_of_Z 50 + Qc_of_Z 40) =
              (Qc_of_Z 10, Qc_of_Z 10, Qc_of_Z 80)) as ->.
    { unfold crop_window.
      repeat f_equal; apply Qc_is_canon; vm_compute; reflexivity. }
    unfold viewbox_text. by rewrite S10, S80.
  - unfold read_viewbox.
    change (PyStr.split "10.0 10.0 80.0 80.0")
      with ["10.0"; "10.0"; "80.0"; "80.0"]%string.
    cbn. unfold float. by rewrite F10, F80.
  - unfold viewbox_span.
    repeat f_equal; apply Qc_is_canon; vm_compute; reflexivity.
  - apply cropped_size.
  - apply cropped_size.
  - intros svg_path output_path w pixels Hpx. split.
    + rewrite svg_to_png_run. unfold rendered. rewrite Hmod. cbn.
      unfold svg2png. by rewrite Hpx.
    + cbn. apply lookup_insert_eq.
Qed.

(** *** The entry point *)

Definition printed (w : World) (m : message) : World :=
  mkWorld (files w) (stdout w ++ [m]).

Definition png_path (current_dir : string) (size : Z) : string :=
  path_join current_dir (png_name size).

(** The world after one round of the rendering loop that succeeded. *)
Definition render_step (current_dir : string) (images : Z → Png)
    (w : World) (size : Z) : World :=
  written (printed w (MsgRendering size size size))
          (png_path current_dir size) (images size).

Definition after_sizes (current_dir : string) (images : Z → Png)
    (w : World) (sizes : list Z) : World :=
  foldl (render_step current_dir images) w sizes.

(** The world when the rendering loop starts: five lines were printed. *)
Definition after_prelude (w : World) (b : bounds) : World :=
  let '(min_x, min_y, max_x, max_y) := b in
  let square_size := max2 (max_x - min_x) (max_y - min_y) in
  mkWorld (files w)
    (stdout w ++
     [MsgContentBounds min_x min_y max_x max_y;
      MsgContentSize (max_x - min_x) (max_y - min_y);
      MsgSquareBox square_size;
      MsgSvgDimensions (float_str square_size) (float_str square_size);
      MsgAspectRatio (square_size / square_size)]).

Lemma render_target_run current_dir svg_path svg_content svg_width svg_height
    size w :
  render_target current_dir svg_path svg_content svg_width svg_height size w =
    match rendered svg_content size size with
    | Ok image =>
        (written (printed w (MsgRendering size size size))
                 (png_path current_dir size) image, Ok tt)
    | Raise e => (printed w (MsgRendering size size size), Raise e)
    end.
Proof.
  unfold render_target, calculate_render_size, mbind, io_mbind, io_bind, print.
  by rewrite svg_to_png_run.
Qed.

(** The loop stops at the first size whose rendering raises. *)
Lemma render_loop_raises current_dir svg_path svg_content svg_width svg_height
    images pre t post e w :
  (∀ s, s ∈ pre → rendered svg_content s s = Ok (images s)) →
  rendered svg_content t t = Raise e →
  for_each (pre ++ t :: post)
    (render_target current_dir svg_path svg_content svg_width svg_height) w =
    (printed (after_sizes current_dir images w pre) (MsgRendering t t t),
     Raise e).
Proof.
  intros Hpre Ht. revert w. induction pre as [|s pre IH]; intros w.
  - cbn [for_each app]. unfold mbind, io_mbind, io_bind.
    by rewrite render_target_run, Ht.
  - cbn [for_each app]. unfold mbind, io_mbind, io_bind.
    rewrite render_target_run, (Hpre s) by (by left).
    apply IH. intros s' Hs'. apply Hpre. by right.
Qed.

(** The loop runs to its end when every size renders. *)
Lemma render_loop_completes current_dir svg_path svg_content svg_width
    svg_height images sizes w :
  (∀ s, s ∈ sizes → rendered svg_content s s = Ok (images s)) →
  for_each sizes
    (render_target current_dir svg_path svg_content svg_width svg_height) w =
    (after_sizes current_dir images w sizes, Ok tt).
Proof.
  intros Hall. revert w. induction sizes as [|s sizes IH]; intros w; [done |].
  cbn [for_each]. unfold mbind, io_mbind, io_bind.
  rewrite render_target_run, (Hall s) by (by left).
  apply IH. intros s' Hs'. apply Hall. by right.
Qed.

Lemma after_sizes_other current_dir images w sizes path :
  (∀ s, s ∈ sizes → png_path current_dir s ≠ path) →
  files (after_sizes current_dir images w sizes) !! path = files w !! path.
Proof.
  unfold after_sizes. revert w.
  induction sizes as [|s sizes IH]; intros w Hne; [done |]. cbn [foldl].
  rewrite IH by (intros s' Hs'; apply Hne; by right).
  cbn. apply lookup_insert_ne, Hne. by left.
Qed.

Lemma after_sizes_written current_dir images w sizes s :
  (∀ s', s' ∈ sizes → png_path current_dir s' = png_path current_dir s → s' = s) →
  s ∈ sizes →
  files (after_sizes current_dir images w sizes) !! png_path current_dir s =
    Some (PngFile (images s)).
Proof.
  unfold after_sizes. intros Hinj Hin. revert w.
  induction sizes as [|s0 sizes IH]; intros w; [by apply elem_of_nil in Hin |].
  cbn [foldl]. destruct (decide (s ∈ sizes)) as [Hs | Hs].
  - apply IH; [| done]. intros s' Hs'. apply Hinj. by right.
  - apply elem_of_cons in Hin as [-> | Hin]; [| done].
    fold (after_sizes current_dir images (render_step current_dir images w s0) sizes).
    rewrite after_sizes_other.
    + cbn. apply lookup_insert_eq.
    + intros s' Hs' Heq. apply Hs.
      rewrite <- (Hinj s' (ltac:(by right)) Heq). done.
Qed.

Lemma path_join_inj current_dir a b :
  path_join current_dir a = path_join current_dir b → a = b.
Proof.
  unfold path_join. induction current_dir as [|c d IH]; cbn.
  - by intros [= Heq].
  - intros [= Heq]. auto.
Qed.

Lemma png_path_inj_targets current_dir s s' :
  s ∈ target_sizes → s' ∈ target_sizes →
  png_path current_dir s = png_path current_dir s' → s = s'.
Proof.
  unfold target_sizes, png_path. intros Hs Hs' Heq%path_join_inj.
  set_unfold in Hs. set_unfold in Hs'.
  destruct Hs as [-> | [-> | [-> | []]]];
    destruct Hs' as [-> | [-> | [-> | []]]];
    first [reflexivity | by vm_compute in Heq].
Qed.

Lemma main_body_bounds_raise current_dir svg_path svg_content e w :
  get_svg_content_bounds svg_content = Raise e →
  main_body current_dir svg_path svg_content w = (w, Raise e).
Proof.
  intros Hb. unfold main_body, get_svg_dimensions, mbind, io_mbind, io_bind,
    io_lift. by rewrite Hb.
Qed.

Lemma main_body_loop_raises current_dir svg_path svg_content b w w1 e :
  get_svg_content_bounds svg_content = Ok b →
  (let '(min_x, min_y, max_x, max_y) := b in
   max2 (max_x - min_x) (max_y - min_y) ≠ Qc_of_Z 0) →
  (∀ svg_width svg_height,
     for_each target_sizes
       (render_target current_dir svg_path svg_content svg_width svg_height)
       (after_prelude w b) = (w1, Raise e)) →
  main_body current_dir svg_path svg_content w = (w1, Raise e).
Proof.
  destruct b as [[[min_x min_y] max_x] max_y]. intros Hb Hsq Hloop.
  unfold main_body, get_svg_dimensions, mbind, io_mbind, io_bind, io_lift,
    io_ret, print.
  rewrite Hb. cbn [files stdout].
  destruct (decide (max2 (max_x - min_x) (max_y - min_y) = Qc_of_Z 0));
    [done |].
  cbn [files stdout]. rewrite <- !(assoc_L (++)). cbn [app].
  unfold after_prelude in Hloop. by rewrite Hloop.
Qed.

Lemma main_run current_dir w svg_content :
  files w !! path_join current_dir "favicon.svg" = Some (TextFile svg_content) →
  main current_dir w =
    match main_body current_dir (path_join current_dir "favicon.svg")
            svg_content w with
    | (w1, Ok _) => (w1, Ok tt)
    | (w1, Raise e) => (printed w1 (MsgErrorProcessing e), Ok tt)
    end.
Proof.
  intros Hfile. unfold main. rewrite Hfile. unfold io_try.
  by destruct (main_body _ _ _ w) as [w1 [[] | e]].
Qed.

Lemma files_after_prelude w b : files (after_prelude w b) = files w.
Proof. by destruct b as [[[? ?] ?] ?]. Qed.

Lemma last_printed w m : last (stdout (printed w m)) = Some m.
Proof. cbn. apply last_snoc. Qed.

(** C3, amended: with the SVG file in place, [main] always runs to its
    end without raising. An exception of the bounds extractor (a parse
    error, a malformed number) is printed and no file is written. An
    exception while a size [t] is rendered is printed; the sizes before
    [t] stay written, and neither [t] nor any size after it in the list
    is generated. *)
Theorem main_stops_at_first_failure current_dir w svg_content :
  files w !! path_join current_dir "favicon.svg" = Some (TextFile svg_content) →
  (∃ w', main current_dir w = (w', Ok tt)) ∧
  (∀ e, get_svg_content_bounds svg_content = Raise e →
        main current_dir w = (printed w (MsgErrorProcessing e), Ok tt)) ∧
  (∀ min_x min_y max_x max_y pre t post e images,
     get_svg_content_bounds svg_content = Ok (min_x, min_y, max_x, max_y) →
     max2 (max_x - min_x) (max_y - min_y) ≠ Qc_of_Z 0 →
     target_sizes = pre ++ t :: post →
     (∀ s, s ∈ pre → rendered svg_content s s = Ok (images s)) →
     rendered svg_content t t = Raise e →
     ∃ w', main current_dir w = (w', Ok tt) ∧
           last (stdout w') = Some (MsgErrorProcessing e) ∧
           (∀ s, s ∈ pre →
              files w' !! png_path current_dir s = Some (PngFile (images s))) ∧
           (∀ s, s ∈ t :: post →
              files w' !! png_path current_dir s =
              files w !! png_path current_dir s)).
Proof.
  intros Hfile. split; [| split].
  - rewrite (main_run _ _ _ Hfile).
    destruct (main_body _ _ _ w) as [w1 [[] | e]]; eauto.
  - intros e Hb. rewrite (main_run _ _ _ Hfile).
    by rewrite (main_body_bounds_raise _ _ _ e w Hb).
  - intros min_x min_y max_x max_y pre t post e images Hb Hsq Hsizes Hpre Ht.
    rewrite (main_run _ _ _ Hfile).
    erewrite main_body_loop_raises; [| exact Hb | exact Hsq |]; cycle 1.
    { intros svg_width svg_height. rewrite Hsizes.
      by apply (render_loop_raises _ _ _ _ _ images). }
    eexists. split; [reflexivity |].
    assert (NoDup target_sizes) as Hnodup by compute_done.
    split; [apply last_printed |]. split.
    + intros s Hs. cbn [files printed].
      rewrite after_sizes_written; [done | | done].
      intros s' Hs' Heq. apply (png_path_inj_targets current_dir); [| | done];
        rewrite Hsizes; apply elem_of_app; by left.
    + intros s Hs. cbn [files printed].
      rewrite after_sizes_other, files_after_prelude; [done |].
      intros s' Hs' Heq.
      assert (s' = s) as ->.
      { apply (png_path_inj_targets current_dir); [| | done];
          rewrite Hsizes; apply elem_of_app; [by left | by right]. }
      rewrite Hsizes in Hnodup. apply NoDup_app in Hnodup as (_ & Hdisj & _).
      by apply (Hdisj s).
Qed.

End WithLibs.

End FaviconFacts.


(** * The GIF resizer: frames, failures and metadata *)

Module CompressGifFacts.

Import CompressGif.

Section WithPillow.
Context `{Pillow}.

(** *** The loop *)

Lemma process_frames_run base_duration max_width max_height source frames :
  Forall2 (λ frame palettized,
             resize_frame max_width max_height frame = Ok palettized)
          source frames →
  process_frames base_duration max_width max_height source =
    Ok (frames,
        (λ frame, default base_duration (frame_info frame !! "duration"))
          <$> source).
Proof.
  induction 1 as [| frame palettized source frames Hframe _ IH]; [done |].
  cbn. by rewrite Hframe, IH.
Qed.

Lemma process_frames_inv base_duration max_width max_height source frames
    durations :
  process_frames base_duration max_width max_height source =
    Ok (frames, durations) →
  Forall2 (λ frame palettized,
             resize_frame max_width max_height frame = Ok palettized)
          source frames ∧
  durations =
    (λ frame, default base_duration (frame_info frame !! "duration"))
      <$> source.
Proof.
  revert frames durations.
  induction source as [| frame source IH]; intros frames durations; cbn.
  - intros [= <- <-]. split; [constructor | done].
  - destruct (resize_frame max_width max_height frame) as [p |] eqn:Hp;
      [| discriminate]. cbn.
    destruct (process_frames base_duration max_width max_height source)
      as [[fs' ds'] |]; [| discriminate]. cbn.
    intros [= <- <-]. destruct (IH fs' ds' eq_refl) as [Hall ->].
    split; [by constructor | done].
Qed.

(** What [resize_gif] does once the input is opened and every frame is
    resized. *)
Lemma resize_gif_run input_path output_path max_width max_height fs data
    base_gif first rest :
  fs !! input_path = Some data →
  image_open data = Ok base_gif →
  Forall2 (λ frame palettized,
             resize_frame max_width max_height frame = Ok palettized)
          (gif_frames base_gif) (first :: rest) →
  resize_gif input_path output_path max_width max_height fs =
    match encode_gif (save_call_of base_gif first rest) with
    | Ok bytes => (<[output_path := bytes]> fs, Ok tt)
    | Raise e =>
        (partial_alter
           (λ previous, failed_save previous (save_call_of base_gif first rest))
           output_path fs,
         Raise e)
    end.
Proof.
  intros Hfile Hopen Hframes. unfold resize_gif.
  rewrite Hfile, Hopen.
  by rewrite (process_frames_run _ _ _ _ _ Hframes).
Qed.

(** *** Frame count *)

(** C8, amended: for an input that opens and has at least one frame, each
    of which is resized, [resize_gif] makes one save call with
    [save_all=True], on the first resized frame with the others as
    [append_images]: the resized frames in the order of the input, as many
    as the input has, with one duration per frame. [output_path] then holds
    what Pillow's encoder writes for that call; how many frames that file
    has is the encoder's choice. *)
Theorem frame_count_preserved input_path output_path max_width max_height fs
    data base_gif frames :
  fs !! input_path = Some data →
  image_open data = Ok base_gif →
  gif_frames base_gif ≠ [] →
  Forall2 (λ frame palettized,
             resize_frame max_width max_height frame = Ok palettized)
          (gif_frames base_gif) frames →
  ∃ call,
    save_all call = true ∧
    save_image call :: append_images call = frames ∧
    length (save_image call :: append_images call) =
      length (gif_frames base_gif) ∧
    length (duration call) = length (gif_frames base_gif) ∧
    resize_gif input_path output_path max_width max_height fs =
      match encode_gif call with
      | Ok bytes => (<[output_path := bytes]> fs, Ok tt)
      | Raise e =>
          (partial_alter (λ previous, failed_save previous call)
             output_path fs,
           Raise e)
      end.
Proof.
  intros Hfile Hopen Hne Hframes.
  pose proof (Forall2_length _ _ _ Hframes) as Hlen.
  destruct frames as [| first rest].
  { destruct (gif_frames base_gif); [done | discriminate]. }
  exists (save_call_of base_gif first rest). split; [done |].
  split; [done |]. split; [by rewrite Hlen |]. split.
  - cbn. by rewrite length_fmap.
  - by apply (resize_gif_run _ _ _ _ _ data).
Qed.

(** *** Failures *)

(** C9: a missing input raises [FileNotFoundError]; an input that opens
    with no frame raises [ValueError], a different exception; in both
    cases the file system is left as it was. *)
Theorem resize_gif_failures input_path output_path max_width max_height fs :
  (fs !! input_path = None →
   resize_gif input_path output_path max_width max_height fs =
     (fs, Raise FileNotFoundError)) ∧
  (∀ data base_gif,
     fs !! input_path = Some data →
     image_open data = Ok base_gif →
     gif_frames base_gif = [] →
     resize_gif input_path output_path max_width max_height fs =
       (fs, Raise ValueError)) ∧
  FileNotFoundError ≠ ValueError.
Proof.
  split; [| split].
  - intros Hfile. unfold resize_gif. by rewrite Hfile.
  - intros data base_gif Hfile Hopen Hnil. unfold resize_gif.
    by rewrite Hfile, Hopen, Hnil.
  - discriminate.
Qed.

(** *** Metadata *)

(** C10, amended: the one save call [resize_gif] makes carries loop count
    0, disposal mode 2 and a duration of 100 ms for each frame of the input
    when the source does not declare them, and its transparency entry is
    the one of the source: present exactly when the source declares one.
    [output_path] then holds what Pillow's encoder writes for that call;
    the metadata of that file is the encoder's. *)
Theorem default_metadata input_path output_path max_width max_height fs
    data base_gif first rest :
  fs !! input_path = Some data →
  image_open data = Ok base_gif →
  Forall2 (λ frame palettized,
             resize_frame max_width max_height frame = Ok palettized)
          (gif_frames base_gif) (first :: rest) →
  ∃ call,
    resize_gif input_path output_path max_width max_height fs =
      match encode_gif call with
      | Ok bytes => (<[output_path := bytes]> fs, Ok tt)
      | Raise e =>
          (partial_alter (λ previous, failed_save previous call)
             output_path fs,
           Raise e)
      end ∧
    save_all call = true ∧
    save_image call :: append_images call = first :: rest ∧
    (gif_info base_gif !! "loop" = None → loop call = 0) ∧
    (gif_info base_gif !! "disposal" = None → disposal call = 2) ∧
    (gif_info base_gif !! "duration" = None →
     Forall (λ frame, frame_info frame !! "duration" = None)
            (gif_frames base_gif) →
     duration call = replicate (length (gif_frames base_gif)) 100) ∧
    transparency call = gif_info base_gif !! "transparency" ∧
    (is_Some (transparency call) ↔
     is_Some (gif_info base_gif !! "transparency")).
Proof.
  intros Hfile Hopen Hframes.
  exists (save_call_of base_gif first rest).
  split; [by apply (resize_gif_run _ _ _ _ _ data) |]. cbn.
  split; [done |]. split; [done |].
  split; [by intros -> |]. split; [by intros -> |]. split; [| done].
  intros -> Hall. cbn. clear Hframes Hopen.
  induction Hall as [| frame source Hframe _ IH]; [done |].
  cbn. by rewrite Hframe, IH.
Qed.

End WithPillow.

End CompressGifFacts.

(** * The favicon generator on concrete documents *)

Module FaviconExamples.

Import PyStr PyNum PyFacts Favicon FaviconFacts Demo.

Local Open Scope Qc_scope.

(** The numbers of a box, to compare two boxes by computation. *)
Definition box_values (r : result bounds) : option (Q * Q * Q * Q) :=
  match r with
  | Ok (a, b, c, d) => Some (this a, this b, this c, this d)
  | Raise _ => None
  end.

Lemma circle_alone :
  Forall (λ e, is_shape e = false) ([circle_root] ++ []).
Proof. repeat constructor. Qed.

(** C5 on the document [circle_svg]: the box is (10, 10, 90, 90). *)
Lemma circle_bounds_witness :
  @get_svg_content_bounds libs_ok circle_svg =
    Ok (Qc_of_Z 50 - Qc_of_Z 40, Qc_of_Z 50 - Qc_of_Z 40,
        Qc_of_Z 50 + Qc_of_Z 40, Qc_of_Z 50 + Qc_of_Z 40).
Proof.
  apply (@circle_bounds libs_ok circle_svg circle_root [circle_root] circle []).
  - reflexivity.
  - reflexivity.
  - exact circle_alone.
  - reflexivity.
  - vm_compute. f_equal. apply Qc_is_canon. reflexivity.
  - vm_compute. f_equal. apply Qc_is_canon. reflexivity.
  - vm_compute. f_equal. apply Qc_is_canon. reflexivity.
  - vm_compute. discriminate.
Defined.

(** The sign condition of [circle_bounds] is needed. An attribute
    [r='-40'] is not a radius, but [float] reads it: for
    [<circle cx='50' cy='50' r='-40'/>] the extractor returns the ordered
    box (10, 10, 90, 90), where (cx − r, cy − r, cx + r, cy + r) would be
    (90, 90, 10, 10). *)
Lemma circle_bounds_negative_radius :
  ¬ (∀ (L : PyLibs) svg_content root pre c post cx cy r,
       fromstring svg_content = Ok root →
       ET.iter root = pre ++ c :: post →
       Forall (λ e, is_shape e = false) (pre ++ post) →
       local_tag c = "circle" →
       float_attr c "cx" = Ok cx → float_attr c "cy" = Ok cy →
       float_attr c "r" = Ok r →
       get_svg_content_bounds svg_content =
         Ok (cx - r, cy - r, cx + r, cy + r)).
Proof.
  intros Hclaim.
  specialize (Hclaim libs_ok negative_circle_svg negative_circle_root
                [negative_circle_root] negative_circle []
                (Q2Qc 50) (Q2Qc 50) (Q2Qc (-40))
                eq_refl eq_refl ltac:(repeat constructor) eq_refl
                eq_refl eq_refl eq_refl).
  apply (f_equal box_values) in Hclaim. vm_compute in Hclaim. discriminate.
Qed.

(** The rects of [rects_svg]. *)
Definition example_rects : list rect :=
  [mkRect (Q2Qc 10) (Q2Qc 20) (Q2Qc 30) (Q2Qc 5);
   mkRect (Q2Qc (-4)) (Q2Qc 22) (Q2Qc 6) (Q2Qc 40)].

Lemma rects_of_example : @rects_of libs_ok (ET.iter rects_root) example_rects.
Proof.
  apply rects_of_other; [reflexivity |].
  apply rects_of_other; [reflexivity |].
  apply rects_of_rect; try reflexivity.
  apply rects_of_rect; try reflexivity.
  apply rects_of_nil.
Qed.

(** C6 on the document [rects_svg]: the box is (−4, 20, 40, 62). *)
Lemma rect_bounds_witness :
  ∃ min_x min_y max_x max_y,
    @get_svg_content_bounds libs_ok rects_svg =
      Ok (min_x, min_y, max_x, max_y) ∧
    is_min min_x (rect_x <$> example_rects) ∧
    is_min min_y (rect_y <$> example_rects) ∧
    is_max max_x ((λ r, rect_x r + rect_width r) <$> example_rects) ∧
    is_max max_y ((λ r, rect_y r + rect_height r) <$> example_rects) ∧
    Forall (λ r, min_x ≤ rect_x r ∧ min_y ≤ rect_y r ∧
                 rect_x r + rect_width r ≤ max_x ∧
                 rect_y r + rect_height r ≤ max_y) example_rects.
Proof.
  apply (@rect_bounds libs_ok rects_svg rects_root example_rects).
  - reflexivity.
  - exact rects_of_example.
  - discriminate.
  - repeat constructor; vm_compute; discriminate.
Defined.

Lemma rects_of_negative :
  @rects_of libs_ok (ET.iter negative_rect_root)
    [mkRect (Q2Qc 10) (Q2Qc 10) (Q2Qc (-5)) (Q2Qc (-5))].
Proof.
  apply rects_of_other; [reflexivity |].
  apply rects_of_rect; try reflexivity.
  apply rects_of_nil.
Qed.

(** The sign condition of [rect_bounds] is needed. Attributes
    [width='-5' height='-5'] are not a size, but [float] reads them: for
    [<rect x='10' y='10' width='-5' height='-5'/>] the extractor returns
    the ordered box (5, 5, 10, 10), where the least [x] is 10. *)
Lemma rect_bounds_negative_size :
  ¬ (∀ (L : PyLibs) svg_content root rs,
       fromstring svg_content = Ok root →
       rects_of (ET.iter root) rs →
       rs ≠ [] →
       ∃ min_x min_y max_x max_y,
         get_svg_content_bounds svg_content = Ok (min_x, min_y, max_x, max_y) ∧
         is_min min_x (rect_x <$> rs) ∧
         is_min min_y (rect_y <$> rs) ∧
         is_max max_x ((λ r, rect_x r + rect_width r) <$> rs) ∧
         is_max max_y ((λ r, rect_y r + rect_height r) <$> rs)).
Proof.
  intros Hclaim.
  destruct (Hclaim libs_ok negative_rect_svg negative_rect_root _
              eq_refl rects_of_negative ltac:(discriminate))
    as (min_x & min_y & max_x & max_y & Hb & [Hin _] & _).
  cbn in Hin. apply list_elem_of_singleton in Hin. subst min_x.
  apply (f_equal box_values) in Hb. vm_compute in Hb. discriminate.
Qed.

(** C4: for [<svg viewBox='10 10 80 80'></svg>], which has no shape, the
    extractor returns (0, 0, 80, 80): the width and height of the declared
    [viewBox] with the origin replaced by zero. The declared [viewBox]
    spans (10, 10) to (90, 90). *)
Theorem viewbox_fallback_drops_origin :
  @collect _ _ (@path_points libs_ok) (ET.iter viewbox_root) = Ok [] ∧
  @collect _ _ (@shape_points libs_ok) (ET.iter viewbox_root) = Ok [] ∧
  ET.get viewbox_root "viewBox" = Some "10 10 80 80"%string ∧
  box_values (@get_svg_content_bounds libs_ok viewbox_svg) =
    Some (0 # 1, 0 # 1, 80 # 1, 80 # 1)%Q ∧
  box_values (@get_svg_content_bounds libs_ok viewbox_svg) ≠
    Some (10 # 1, 10 # 1, 90 # 1, 90 # 1)%Q.
Proof. repeat split; try reflexivity. vm_compute. discriminate. Qed.

(** C7 on the document [rects_svg], whose box (−4, 20, 40, 62) is 44
    wide and 42 high: the square has side 44 and origin (−4, 19). *)
Lemma crop_window_centred_witness :
  ∃ root,
    @modified_root libs_ok rects_svg 128 128 = Ok root ∧
    ET.get root "viewBox" = Some "-4.0 19.0 44.0 44.0"%string ∧
    @read_viewbox libs_ok "-4.0 19.0 44.0 44.0" =
      Ok (Q2Qc (-4), Q2Qc 19, Q2Qc 44, Q2Qc 44).
Proof.
  destruct (@crop_window_centred libs_ok rects_svg 128 128
              (Q2Qc (-4)) (Q2Qc 20) (Q2Qc 40) (Q2Qc 62))
    as (_ & root & text & Hmod & Hget & Hread & _).
  - reflexivity.
  - split; [reflexivity |]. vm_compute. f_equal. apply Qc_is_canon. reflexivity.
  - split; [reflexivity |]. vm_compute. f_equal. apply Qc_is_canon. reflexivity.
  - split; [reflexivity |]. vm_compute. f_equal. apply Qc_is_canon. reflexivity.
  - assert (text = "-4.0 19.0 44.0 44.0"%string) as ->.
    { vm_compute in Hmod. injection Hmod as <-. vm_compute in Hget.
      by injection Hget as <-. }
    exists root. split; [exact Hmod |]. split; [exact Hget |].
    rewrite Hread. reflexivity.
Defined.

(** C1 on the document [circle_svg]. *)
Lemma circle_example_128_witness :
  ∃ root',
    @modified_root libs_ok circle_svg 128 128 = Ok root' ∧
    ET.get root' "viewBox" = Some "10.0 10.0 80.0 80.0"%string ∧
    @read_viewbox libs_ok "10.0 10.0 80.0 80.0" =
      Ok (Qc_of_Z 10, Qc_of_Z 10, Qc_of_Z 80, Qc_of_Z 80) ∧
    viewbox_span (Qc_of_Z 10, Qc_of_Z 10, Qc_of_Z 80, Qc_of_Z 80) =
      (Qc_of_Z 10, Qc_of_Z 10, Qc_of_Z 90, Qc_of_Z 90) ∧
    ET.get root' "width" = Some "128"%string ∧
    ET.get root' "height" = Some "128"%string ∧
    ∀ svg_path output_path w pixels,
      @cairo_render libs_ok (@tostring libs_ok root') 128 128 = Ok pixels →
      @svg_to_png libs_ok svg_path output_path 128 128 circle_svg w =
        (written w output_path (mkPng 128 128 pixels), Ok tt) ∧
      files (written w output_path (mkPng 128 128 pixels)) !! output_path =
        Some (PngFile (mkPng 128 128 pixels)).
Proof.
  apply (@circle_example_128 libs_ok circle_svg circle_root [circle_root]
           circle []).
  - reflexivity.
  - reflexivity.
  - exact circle_alone.
  - reflexivity.
  - reflexivity.
  - reflexivity.
  - reflexivity.
  - vm_compute. f_equal. apply Qc_is_canon. reflexivity.
  - vm_compute. f_equal. apply Qc_is_canon. reflexivity.
  - reflexivity.
  - reflexivity.
  - vm_compute. f_equal. apply Qc_is_canon. reflexivity.
  - vm_compute. f_equal. apply Qc_is_canon. reflexivity.
Defined.

(** The run of [svg_to_png] on [circle_svg] at size 128, in an empty
    world: one file, an image of 128 by 128 pixels. *)
Example circle_png_written :
  let w' := (@svg_to_png libs_ok "favicon.svg" "favicon-128x128.png" 128 128
               circle_svg (mkWorld ∅ [])).1 in
  files w' !! "favicon-128x128.png" = Some (PngFile (mkPng 128 128 EmptyString)) ∧
  stdout w' = [MsgGenerated "favicon-128x128.png" 128 128].
Proof. split; by vm_compute. Qed.

(** The text written into the [viewBox] of [circle_svg]. *)
Example circle_viewbox_text :
  @viewbox_text libs_ok (Qc_of_Z 10, Qc_of_Z 10, Qc_of_Z 80) =
    "10.0 10.0 80.0 80.0"%string.
Proof. reflexivity. Qed.

(** The directory of the script, holding [favicon.svg] only. *)
Definition site : World :=
  mkWorld {[ "/site/favicon.svg"%string := TextFile circle_svg ]} [].

(** C3 on [site], with a rasteriser that fails at size 128: [main] ends
    normally, the diagnostic is the last line printed, the PNG of size 32
    is written, and neither size 128 nor size 256 is generated. *)
Lemma main_stops_at_first_failure_witness :
  ∃ w', @main libs_fail_128 "/site" site = (w', Ok tt) ∧
        last (stdout w') = Some (MsgErrorProcessing (LibraryError 1)) ∧
        files w' !! png_path "/site" 32 =
          Some (PngFile (mkPng 32 32 EmptyString)) ∧
        files w' !! png_path "/site" 128 = None ∧
        files w' !! png_path "/site" 256 = None.
Proof.
  destruct (@main_stops_at_first_failure libs_fail_128 "/site" site circle_svg
              eq_refl) as (_ & _ & Hloop).
  destruct (Hloop (Q2Qc 10) (Q2Qc 10) (Q2Qc 90) (Q2Qc 90)
              [32%Z] 128%Z [256%Z] (LibraryError 1)
              (λ s, mkPng s s EmptyString))
    as (w' & Hmain & Hlast & Hpre & Hpost).
  - reflexivity.
  - intros Hzero. apply (f_equal this) in Hzero. vm_compute in Hzero.
    discriminate.
  - reflexivity.
  - intros s ->%list_elem_of_singleton. reflexivity.
  - reflexivity.
  - exists w'. split; [exact Hmain |]. split; [exact Hlast |]. split.
    + apply Hpre. by left.
    + split.
      * rewrite Hpost by (by left). reflexivity.
      * rewrite Hpost by (right; by left). reflexivity.
Defined.

(** C3 as stated fails: when only the rendering of size 128 raises, the
    size 256, which would render, is not generated either. *)
Lemma main_skips_later_sizes :
  ¬ (∀ (L : PyLibs) current_dir w svg_content t e,
       files w !! path_join current_dir "favicon.svg" =
         Some (TextFile svg_content) →
       t ∈ target_sizes →
       rendered svg_content t t = Raise e →
       (∀ s, s ∈ target_sizes → s ≠ t →
             ∃ image, rendered svg_content s s = Ok image) →
       ∀ s, s ∈ target_sizes → s ≠ t →
            ∃ image, files (main current_dir w).1 !! png_path current_dir s =
                       Some (PngFile image)).
Proof.
  intros Hclaim.
  destruct (Hclaim libs_fail_128 "/site"%string site circle_svg 128%Z
              (LibraryError 1) eq_refl) with (s := 256%Z)
    as [image Himage].
  - unfold target_sizes. set_unfold. tauto.
  - reflexivity.
  - unfold target_sizes. intros s Hs Hne. set_unfold in Hs.
    destruct Hs as [-> | [-> | [-> | []]]]; [| done |];
      eexists; vm_compute; reflexivity.
  - unfold target_sizes. set_unfold. tauto.
  - discriminate.
  - vm_compute in Himage. discriminate.
Qed.

(** With a rasteriser that never fails the three sizes are written. *)
Example main_generates_all_sizes :
  let w' := (@main libs_ok "/site" site).1 in
  @main libs_ok "/site" site = (w', Ok tt) ∧
  files w' !! png_path "/site" 32 = Some (PngFile (mkPng 32 32 EmptyString)) ∧
  files w' !! png_path "/site" 128 = Some (PngFile (mkPng 128 128 EmptyString)) ∧
  files w' !! png_path "/site" 256 = Some (PngFile (mkPng 256 256 EmptyString)).
Proof. repeat split; by vm_compute. Qed.

End FaviconExamples.

(** * The GIF resizer on a concrete animation *)

Module CompressGifExamples.

Import CompressGif CompressGifFacts.

(** The decoder knows the files of [table]; any other bytes are not an
    image. *)
Definition open_from (table : list (string * Gif)) (data : string)
  : result Gif :=
  match list_find (λ entry, fst entry = data) table with
  | Some (_, (_, gif)) => Ok gif
  | None => Raise UnidentifiedImageError
  end.

Definition with_mode (mode : string) (frame : Frame) : result Frame :=
  Ok (mkFrame (frame_width frame) (frame_height frame) mode
              (frame_info frame) (frame_pixels frame)).

(** A stand-in for the resampler: the frame gets the size of the largest
    box of its proportions inside [size], by integer division. *)
Definition fit (frame : Frame) (size : Z * Z) : result Frame :=
  let '(max_width, max_height) := size in
  let '(width, height) :=
    if frame_width frame * max_height <=? frame_height frame * max_width
    then (frame_width frame * max_height / frame_height frame, max_height)
    else (max_width, frame_height frame * max_width / frame_width frame) in
  Ok (mkFrame width height (frame_mode frame) (frame_info frame)
              (frame_pixels frame)).

(** A stand-in for the encoder: a header and the number of frames. *)
Definition encode (call : SaveCall) : result string :=
  Ok ("GIF89a " +:+ pretty (Z.of_nat (length (saved_frames call)))).

Definition pillow (table : list (string * Gif)) : Pillow := {|
  image_open := open_from table;
  convert_rgba := with_mode "RGBA";
  contain := fit;
  convert_adaptive := with_mode "P";
  encode_gif := encode;
  failed_save := λ _ _, None;
|}.

(** An animation of two frames of 720 by 480 pixels that declares a
    transparency index and nothing else. *)
Definition frame_1 : Frame := mkFrame 720 480 "P" ∅ "first".
Definition frame_2 : Frame := mkFrame 720 480 "P" ∅ "second".
Definition animation : Gif :=
  mkGif {[ "transparency"%string := 255 ]} [frame_1; frame_2].

(** An animation without a frame. *)
Definition empty_animation : Gif := mkGif ∅ [].

Definition demo_pillow : Pillow :=
  pillow [("original"%string, animation); ("empty"%string, empty_animation)].

Definition disk : gmap string string :=
  {[ "retargeting-original.gif"%string := "original"%string;
     "broken.gif"%string := "empty"%string ]}.

Definition resized_1 : Frame := mkFrame 360 240 "P" ∅ "first".
Definition resized_2 : Frame := mkFrame 360 240 "P" ∅ "second".

Lemma animation_resized :
  Forall2 (λ frame palettized,
             @resize_frame demo_pillow 360 360 frame = Ok palettized)
          (gif_frames animation) [resized_1; resized_2].
Proof. repeat constructor. Qed.

(** C8 on [animation]: two frames in, two frames in the save call. *)
Lemma frame_count_preserved_witness :
  ∃ call,
    save_all call = true ∧
    save_image call :: append_images call = [resized_1; resized_2] ∧
    length (save_image call :: append_images call) =
      length (gif_frames animation) ∧
    length (duration call) = length (gif_frames animation) ∧
    @resize_gif demo_pillow "retargeting-original.gif" "retargeting-abit.gif"
      360 360 disk =
      match @encode_gif demo_pillow call with
      | Ok bytes => (<["retargeting-abit.gif"%string := bytes]> disk, Ok tt)
      | Raise e =>
          (partial_alter (λ previous, @failed_save demo_pillow previous call)
             "retargeting-abit.gif" disk,
           Raise e)
      end.
Proof.
  apply (@frame_count_preserved demo_pillow "retargeting-original.gif"
           "retargeting-abit.gif" 360 360 disk "original" animation).
  - reflexivity.
  - reflexivity.
  - discriminate.
  - exact animation_resized.
Defined.

(** C9 on [disk]: a path that does not exist, and a file without frames. *)
Lemma resize_gif_failures_witness :
  @resize_gif demo_pillow "missing.gif" "out.gif" 360 360 disk =
    (disk, Raise FileNotFoundError) ∧
  @resize_gif demo_pillow "broken.gif" "out.gif" 360 360 disk =
    (disk, Raise ValueError) ∧
  disk !! "out.gif" = None.
Proof.
  destruct (@resize_gif_failures demo_pillow "missing.gif" "out.gif" 360 360 disk)
    as (Hmissing & _ & _).
  destruct (@resize_gif_failures demo_pillow "broken.gif" "out.gif" 360 360 disk)
    as (_ & Hempty & _).
  split; [apply Hmissing; reflexivity |].
  split; [apply (Hempty "empty"%string empty_animation); reflexivity |].
  reflexivity.
Defined.

(** C10 on [animation]: the defaults, and the transparency index of the
    source. *)
Lemma default_metadata_witness :
  ∃ call,
    @resize_gif demo_pillow "retargeting-original.gif" "retargeting-abit.gif"
      360 360 disk =
      match @encode_gif demo_pillow call with
      | Ok bytes => (<["retargeting-abit.gif"%string := bytes]> disk, Ok tt)
      | Raise e =>
          (partial_alter (λ previous, @failed_save demo_pillow previous call)
             "retargeting-abit.gif" disk,
           Raise e)
      end ∧
    save_all call = true ∧
    save_image call :: append_images call = [resized_1; resized_2] ∧
    loop call = 0 ∧ disposal call = 2 ∧ duration call = [100; 100] ∧
    transparency call = Some 255.
Proof.
  destruct (@default_metadata demo_pillow "retargeting-original.gif"
              "retargeting-abit.gif" 360 360 disk "original" animation
              resized_1 [resized_2] eq_refl eq_refl animation_resized)
    as (call & Hrun & Hall & Hframes & Hloop & Hdisposal & Hduration &
        Htransparency & _).
  exists call. split; [exact Hrun |].
  split; [exact Hall |]. split; [exact Hframes |].
  split; [by apply Hloop |]. split; [by apply Hdisposal |].
  split; [| exact Htransparency].
  apply Hduration; [reflexivity | repeat constructor].
Defined.

(** The run of the script on [disk]. *)
Example resize_gif_example :
  @resize_gif demo_pillow "retargeting-original.gif" "retargeting-abit.gif"
    360 360 disk =
    (<["retargeting-abit.gif"%string := "GIF89a 2"%string]> disk, Ok tt).
Proof. reflexivity. Qed.

(** *** An encoder that merges frames

    Pillow's GIF writer does not write a frame that shows the same picture
    as the frame before it: it adds the duration of that frame to the one
    before. The encoder below does the same. *)

Definition same_picture (a b : Frame) : bool :=
  (frame_width a =? frame_width b) && (frame_height a =? frame_height b) &&
  String.eqb (frame_pixels a) (frame_pixels b).

Fixpoint merge_identical (frames : list (Frame * Z)) : list (Frame * Z) :=
  match frames with
  | [] => []
  | (frame, d) :: rest =>
      match merge_identical rest with
      | (next, e) :: rest' =>
          if same_picture frame next then (frame, d + e) :: rest'
          else (frame, d) :: (next, e) :: rest'
      | [] => [(frame, d)]
      end
  end.

(** The durations of the frames the merging writer keeps. *)
Definition written_durations (call : SaveCall) : list Z :=
  if save_all call
  then snd <$> merge_identical (zip (saved_frames call) (duration call))
  else take 1 (duration call).

(** A header and the duration of each frame written. *)
Definition encode_merging (call : SaveCall) : result string :=
  Ok ("GIF89a" +:+
      foldr (λ d text, " " +:+ pretty d +:+ text) "" (written_durations call)).

(** Two frames with the same picture, and no metadata at all. *)
Definition still_animation : Gif := mkGif ∅ [frame_1; frame_1].

(** What the merging encoder writes for [still_animation], opened again:
    one frame, shown for 200 ms. *)
Definition held_frame : Frame :=
  mkFrame 360 240 "P" {[ "duration"%string := 200 ]} "first".
Definition held_animation : Gif :=
  mkGif {[ "duration"%string := 200; "loop"%string := 0 ]} [held_frame].

Definition merging_pillow : Pillow := {|
  image_open :=
    open_from [("still"%string, still_animation);
               ("GIF89a 200"%string, held_animation)];
  convert_rgba := with_mode "RGBA";
  contain := fit;
  convert_adaptive := with_mode "P";
  encode_gif := encode_merging;
  failed_save := λ _ _, None;
|}.

Definition still_disk : gmap string string :=
  {[ "still.gif"%string := "still"%string ]}.

(** The save call for [still_animation] has two frames of 100 ms each; the
    file written has one frame of 200 ms. *)
Example still_animation_run :
  @resize_gif merging_pillow "still.gif" "out.gif" 360 360 still_disk =
    (<["out.gif"%string := "GIF89a 200"%string]> still_disk, Ok tt) ∧
  @image_open merging_pillow "GIF89a 200" = Ok held_animation ∧
  length (gif_frames held_animation) = 1%nat ∧
  length (gif_frames still_animation) = 2%nat.
Proof. repeat split. Qed.

(** The original wording of C8 counts the frames of the file written. It
    fails for [still_animation] with the merging encoder: two frames in,
    one frame in the file. *)
Lemma identical_frames_are_merged :
  ¬ (∀ (P : Pillow) input_path output_path max_width max_height
       (fs fs' : gmap string string) data base_gif bytes written,
       fs !! input_path = Some data →
       @image_open P data = Ok base_gif →
       gif_frames base_gif ≠ [] →
       @resize_gif P input_path output_path max_width max_height fs =
         (fs', Ok tt) →
       fs' !! output_path = Some bytes →
       @image_open P bytes = Ok written →
       length (gif_frames written) = length (gif_frames base_gif)).
Proof.
  intros Hclaim.
  specialize (Hclaim merging_pillow "still.gif"%string "out.gif"%string
                360 360 still_disk
                (<["out.gif"%string := "GIF89a 200"%string]> still_disk)
                "still"%string still_animation "GIF89a 200"%string
                held_animation).
  discriminate Hclaim; try reflexivity. discriminate.
Qed.

(** The original wording of C10 gives each frame of the file written 100
    ms. It fails for [still_animation], which declares no metadata, with
    the merging encoder: the one frame written is shown for 200 ms. *)
Lemma merged_duration_is_not_default :
  ¬ (∀ (P : Pillow) input_path output_path max_width max_height
       (fs fs' : gmap string string) data base_gif bytes written,
       fs !! input_path = Some data →
       @image_open P data = Ok base_gif →
       gif_info base_gif !! "duration" = None →
       Forall (λ frame, frame_info frame !! "duration" = None)
              (gif_frames base_gif) →
       @resize_gif P input_path output_path max_width max_height fs =
         (fs', Ok tt) →
       fs' !! output_path = Some bytes →
       @image_open P bytes = Ok written →
       Forall (λ frame, frame_info frame !! "duration" = Some 100)
              (gif_frames written)).
Proof.
  intros Hclaim.
  specialize (Hclaim merging_pillow "still.gif"%string "out.gif"%string
                360 360 still_disk
                (<["out.gif"%string := "GIF89a 200"%string]> still_disk)
                "still"%string still_animation "GIF89a 200"%string
                held_animation).
  assert (Forall (λ frame, frame_info frame !! "duration" = Some 100)
                 (gif_frames held_animation)) as Hall.
  { apply Hclaim; try reflexivity. repeat constructor. }
  inversion Hall as [| ? ? Hhead _]. discriminate Hhead.
Qed.

End CompressGifExamples.

(** * More on the bounds extractor *)

Module FaviconMore.

Import PyStr PyNum PyFacts Favicon FaviconFacts.

Section WithLibs.
Context `{PyLibs}.

Local Open Scope Qc_scope.

(** *** The box encloses every harvested point *)

Lemma points_bounds_spec p ps :
  let '(min_x, min_y, max_x, max_y) := points_bounds p ps in
  is_min min_x (fst <$> p :: ps) ∧ is_min min_y (snd <$> p :: ps) ∧
  is_max max_x (fst <$> p :: ps) ∧ is_max max_y (snd <$> p :: ps).
Proof.
  unfold points_bounds. cbn [fmap list_fmap].
  repeat split; first [apply min_from_spec | apply max_from_spec].
Qed.

(** X1: when the two loops harvest at least one point, the box returned is
    tight around all of them: each bound is the coordinate of some point,
    every point lies inside, and the box is not inverted. *)
Theorem bounds_enclose_points svg_content root path_pts shape_pts :
  fromstring svg_content = Ok root →
  collect path_points (ET.iter root) = Ok path_pts →
  collect shape_points (ET.iter root) = Ok shape_pts →
  path_pts ++ shape_pts ≠ [] →
  ∃ min_x min_y max_x max_y,
    get_svg_content_bounds svg_content = Ok (min_x, min_y, max_x, max_y) ∧
    is_min min_x (fst <$> path_pts ++ shape_pts) ∧
    is_min min_y (snd <$> path_pts ++ shape_pts) ∧
    is_max max_x (fst <$> path_pts ++ shape_pts) ∧
    is_max max_y (snd <$> path_pts ++ shape_pts) ∧
    min_x ≤ max_x ∧ min_y ≤ max_y ∧
    Forall (λ p : point, (min_x ≤ p.1 ∧ p.1 ≤ max_x) ∧
                         (min_y ≤ p.2 ∧ p.2 ≤ max_y))
           (path_pts ++ shape_pts).
Proof.
  intros Hroot Hp Hs Hne. unfold get_svg_content_bounds.
  rewrite Hroot. cbn. rewrite Hp, Hs. cbn.
  destruct (path_pts ++ shape_pts) as [| p ps]; [done |].
  pose proof (points_bounds_spec p ps) as Hspec.
  destruct (points_bounds p ps) as [[[min_x min_y] max_x] max_y].
  destruct Hspec as (Hmx & Hmy & HMx & HMy).
  exists min_x, min_y, max_x, max_y. split; [done |].
  do 4 (split; [done |]).
  split; [apply HMx, Hmx |]. split; [apply HMy, Hmy |].
  apply Forall_forall. intros q Hq. repeat split.
  - apply Hmx, list_elem_of_fmap. by exists q.
  - apply HMx, list_elem_of_fmap. by exists q.
  - apply Hmy, list_elem_of_fmap. by exists q.
  - apply HMy, list_elem_of_fmap. by exists q.
Qed.

(** *** Failures *)

(** A computation whose only exception is [ValueError]. *)
Definition raises_only_value_error {A} (r : result A) : Prop :=
  ∀ e, r = Raise e → e = ValueError.

Lemma float_value_error s : raises_only_value_error (float s).
Proof.
  unfold float. intros e. destruct (float_of_string s); [discriminate |].
  by intros [= <-].
Qed.

Lemma float_attr_value_error elem key :
  raises_only_value_error (float_attr elem key).
Proof.
  unfold float_attr. destruct (ET.get elem key).
  - apply float_value_error.
  - discriminate.
Qed.

Lemma bind_value_error {A B} (m : result A) (k : A → result B) :
  raises_only_value_error m →
  (∀ a, raises_only_value_error (k a)) →
  raises_only_value_error (m ≫= k).
Proof.
  intros Hm Hk e. destruct m as [a | e']; cbn.
  - apply Hk.
  - intros [= <-]. by apply Hm.
Qed.

Lemma ok_value_error {A} (a : A) : raises_only_value_error (Ok a).
Proof. discriminate. Qed.

Lemma map_result_value_error {A B} (f : A → result B) l :
  (∀ a, raises_only_value_error (f a)) →
  raises_only_value_error (map_result f l).
Proof.
  intros Hf. induction l as [| a l IH]; cbn; [apply ok_value_error |].
  apply bind_value_error; [apply Hf |]. intros y.
  apply bind_value_error; [apply IH |]. intros ys. apply ok_value_error.
Qed.

Lemma collect_value_error {A B} (f : A → result (list B)) l :
  (∀ a, raises_only_value_error (f a)) →
  raises_only_value_error (collect f l).
Proof.
  intros Hf. induction l as [| a l IH]; cbn; [apply ok_value_error |].
  apply bind_value_error; [apply Hf |]. intros y.
  apply bind_value_error; [apply IH |]. intros ys. apply ok_value_error.
Qed.

Lemma parse_path_data_value_error path_data :
  raises_only_value_error (parse_path_data path_data).
Proof.
  unfold parse_path_data. apply map_result_value_error. intros [a b]. cbn.
  apply bind_value_error; [apply float_value_error |]. intros x.
  apply bind_value_error; [apply float_value_error |]. intros y.
  apply ok_value_error.
Qed.

Lemma map_result_Forall2 {A B} (f : A → result B) l ys :
  map_result f l = Ok ys ↔ Forall2 (λ a y, f a = Ok y) l ys.
Proof.
  revert ys. induction l as [| a l IH]; intros ys; cbn.
  - split; [intros [= <-]; constructor | by inversion 1].
  - split.
    + destruct (f a) as [y |] eqn:Hy; [| discriminate]. cbn.
      destruct (map_result f l) as [ys' |] eqn:Hys; [| discriminate]. cbn.
      intros [= <-]. constructor; [done |]. by apply IH.
    + inversion 1 as [| ? y ? ys' Hy Hrest]; subst. rewrite Hy. cbn.
      apply IH in Hrest. by rewrite Hrest.
Qed.

Lemma map_result_raise_inv {A B} (f : A → result B) l e :
  map_result f l = Raise e → Exists (λ a, f a = Raise e) l.
Proof.
  induction l as [| a l IH]; cbn; [discriminate |].
  destruct (f a) as [y |] eqn:Hy; cbn.
  - destruct (map_result f l) as [ys |]; cbn; [discriminate |].
    intros [= ->]. apply Exists_cons_tl. by apply IH.
  - intros [= ->]. by apply Exists_cons_hd.
Qed.

(** The point of one match: [float(match[0]), float(match[1])]. *)
Lemma match_point (m : string * string) (p : point) :
  (x ← float m.1; y ← float m.2; Ok (x, y)) = Ok p ↔
  float_of_string m.1 = Some p.1 ∧ float_of_string m.2 = Some p.2.
Proof.
  unfold float. destruct p as [px py]. cbn [fst snd].
  destruct (float_of_string m.1) as [x |]; cbn; [| by split; [| intros []]].
  destruct (float_of_string m.2) as [y |]; cbn; [| by split; [| intros []]].
  split; [by intros [= -> ->] | by intros [[= ->] [= ->]]].
Qed.

(** X19: [parse_path_data] returns the points of the matches of the
    coordinate pattern, in their order: one point per match, made of the
    two numbers [float] reads from its groups. It returns whenever [float]
    reads every group, and otherwise raises [ValueError]. *)
Theorem parse_path_data_points path_data :
  let matches := re_findall_coordinates (re_sub_spaces (strip path_data)) in
  (∀ points,
     parse_path_data path_data = Ok points ↔
     Forall2 (λ (m : string * string) (p : point),
                float_of_string m.1 = Some p.1 ∧
                float_of_string m.2 = Some p.2) matches points) ∧
  (Forall (λ m : string * string,
             is_Some (float_of_string m.1) ∧ is_Some (float_of_string m.2))
          matches →
   ∃ points, parse_path_data path_data = Ok points ∧
             length points = length matches) ∧
  (∀ e, parse_path_data path_data = Raise e →
        e = ValueError ∧
        Exists (λ m : string * string,
                  float_of_string m.1 = None ∨ float_of_string m.2 = None)
               matches).
Proof.
  intros matches.
  assert (∀ points,
            parse_path_data path_data = Ok points ↔
            Forall2 (λ (m : string * string) (p : point),
                       float_of_string m.1 = Some p.1 ∧
                       float_of_string m.2 = Some p.2) matches points)
    as Hpoints.
  { intros points. unfold parse_path_data. fold matches.
    rewrite map_result_Forall2. split; intros Hall;
      (eapply Forall2_impl; [exact Hall |]); intros m p; apply match_point. }
  split; [exact Hpoints |]. split.
  - intros Hall.
    assert (∃ points,
              Forall2 (λ (m : string * string) (p : point),
                         float_of_string m.1 = Some p.1 ∧
                         float_of_string m.2 = Some p.2) matches points)
      as [points Hp].
    { clear Hpoints. clearbody matches.
      induction Hall as [| m ms [[x Hx] [y Hy]] _ [points IH]].
      - exists []. constructor.
      - exists ((x, y) :: points). by constructor. }
    exists points. split; [by apply Hpoints |].
    symmetry. by eapply Forall2_length.
  - intros e He. split.
    + by apply (parse_path_data_value_error path_data e).
    + unfold parse_path_data in He. fold matches in He.
      apply map_result_raise_inv in He.
      eapply Exists_impl; [exact He |]. intros m. cbn. unfold float.
      destruct (float_of_string m.1); cbn; [| by left].
      destruct (float_of_string m.2); cbn; [discriminate | by right].
Qed.

Lemma path_points_value_error e : raises_only_value_error (path_points e).
Proof.
  unfold path_points. destruct (endswith _ _); [| apply ok_value_error].
  destruct (ET.get e "d") as [d |]; [| apply ok_value_error].
  destruct (truthy d); [apply parse_path_data_value_error | apply ok_value_error].
Qed.

Lemma shape_points_value_error e : raises_only_value_error (shape_points e).
Proof.
  unfold shape_points.
  repeat match goal with
  | |- raises_only_value_error (if ?b then _ else _) => destruct b
  | |- raises_only_value_error (_ ≫= _) =>
      apply bind_value_error; [apply float_attr_value_error | intros ?]
  | |- raises_only_value_error (Ok _) => apply ok_value_error
  | |- raises_only_value_error (parse_path_data _) =>
      apply parse_path_data_value_error
  end.
Qed.

Lemma viewbox_fallback_value_error root :
  raises_only_value_error (viewbox_fallback root).
Proof.
  unfold viewbox_fallback. destruct (ET.get root "viewBox") as [vb |];
    [| apply ok_value_error].
  destruct (truthy vb); [| apply ok_value_error].
  apply bind_value_error; [apply map_result_value_error, float_value_error |].
  intros vs. intros e.
  destruct vs as [| ? [| ? [| ? [| ? [| ? ?]]]]]; by intros [= <-].
Qed.

Lemma bounds_value_error svg_content root :
  fromstring svg_content = Ok root →
  raises_only_value_error (get_svg_content_bounds svg_content).
Proof.
  intros Hroot. unfold get_svg_content_bounds. rewrite Hroot. cbn.
  apply bind_value_error.
  { apply collect_value_error, path_points_value_error. }
  intros path_pts. apply bind_value_error.
  { apply collect_value_error, shape_points_value_error. }
  intros shape_pts. destruct (path_pts ++ shape_pts).
  - apply viewbox_fallback_value_error.
  - apply ok_value_error.
Qed.

(** X2: once the document is parsed, the only exception the extractor can
    raise is [ValueError]. *)
Theorem bounds_raise_only_value_error svg_content root e :
  fromstring svg_content = Ok root →
  get_svg_content_bounds svg_content = Raise e →
  e = ValueError.
Proof. intros Hroot. by apply (bounds_value_error svg_content root). Qed.

Lemma collect_raises {A B} (f : A → result (list B)) l a e :
  a ∈ l → f a = Raise e → ∃ e', collect f l = Raise e'.
Proof.
  intros Hin Ha. induction l as [| b l IH]; [by apply elem_of_nil in Hin |].
  cbn. apply elem_of_cons in Hin as [<- | Hin].
  - rewrite Ha. by eexists.
  - destruct (f b); cbn; [| by eexists].
    destruct (IH Hin) as [e' ->]. by eexists.
Qed.

(** X3: one element whose numbers cannot be read aborts the whole
    computation with [ValueError]: there is no partial box and no fallback
    to the [viewBox]. *)
Theorem malformed_element_aborts svg_content root elem e :
  fromstring svg_content = Ok root →
  elem ∈ ET.iter root →
  path_points elem = Raise e ∨ shape_points elem = Raise e →
  get_svg_content_bounds svg_content = Raise ValueError.
Proof.
  intros Hroot Hin Hbad.
  assert (∃ e', get_svg_content_bounds svg_content = Raise e') as [e' He'].
  { unfold get_svg_content_bounds. rewrite Hroot. cbn.
    destruct (collect path_points (ET.iter root)) as [path_pts |] eqn:Hp;
      cbn; [| by eexists].
    destruct Hbad as [Hbad | Hbad].
    - destruct (collect_raises _ _ _ _ Hin Hbad) as [e' He']. congruence.
    - destruct (collect_raises _ _ _ _ Hin Hbad) as [e' ->]. by eexists. }
  rewrite He'. f_equal. by apply (bounds_value_error svg_content root).
Qed.

(** *** Malformed [viewBox] *)

Lemma map_result_length {A B} (f : A → result B) l ys :
  map_result f l = Ok ys → length ys = length l.
Proof.
  revert ys. induction l as [| a l IH]; intros ys; cbn.
  - by intros [= <-].
  - destruct (f a); [| discriminate]. cbn.
    destruct (map_result f l) as [ys' |]; [| discriminate]. cbn.
    intros [= <-]. cbn. f_equal. by apply IH.
Qed.

Lemma map_result_raises {A B} (f : A → result B) l a e :
  a ∈ l → f a = Raise e → ∃ e', map_result f l = Raise e'.
Proof.
  intros Hin Ha. induction l as [| b l IH]; [by apply elem_of_nil in Hin |].
  cbn. apply elem_of_cons in Hin as [<- | Hin].
  - rewrite Ha. by eexists.
  - destruct (f b); cbn; [| by eexists].
    destruct (IH Hin) as [e' ->]. by eexists.
Qed.

(** X4: when no point is found and the root has a [viewBox], the
    fallback needs exactly four blank-separated numbers: an empty attribute
    gives the default box, any other token count or an unreadable token
    raises [ValueError] (so does a comma-separated [viewBox]). *)
Theorem viewbox_needs_four_numbers svg_content root viewbox :
  fromstring svg_content = Ok root →
  collect path_points (ET.iter root) = Ok [] →
  collect shape_points (ET.iter root) = Ok [] →
  ET.get root "viewBox" = Some viewbox →
  (viewbox = EmptyString →
   get_svg_content_bounds svg_content = Ok default_bounds) ∧
  (viewbox ≠ EmptyString → length (split viewbox) ≠ 4%nat →
   get_svg_content_bounds svg_content = Raise ValueError) ∧
  (viewbox ≠ EmptyString →
   ∀ token, token ∈ split viewbox → float_of_string token = None →
   get_svg_content_bounds svg_content = Raise ValueError).
Proof.
  intros Hroot Hp Hs Hvb.
  assert (get_svg_content_bounds svg_content = viewbox_fallback root) as ->.
  { unfold get_svg_content_bounds. rewrite Hroot. cbn. by rewrite Hp, Hs. }
  unfold viewbox_fallback. rewrite Hvb.
  split; [by intros -> |].
  assert (viewbox ≠ EmptyString → truthy viewbox = true) as Htruthy.
  { intros Hne. unfold truthy. apply negb_true_iff.
    by apply String.eqb_neq. }
  split.
  - intros Hne Hlen. rewrite (Htruthy Hne).
    destruct (map_result float (split viewbox)) as [vs |] eqn:Hvs; cbn.
    + apply map_result_length in Hvs.
      destruct vs as [| ? [| ? [| ? [| ? [| ? ?]]]]]; try done;
        cbn in Hvs; congruence.
    + f_equal. eapply (map_result_value_error float); [| exact Hvs].
      apply float_value_error.
  - intros Hne token Hin Htoken. rewrite (Htruthy Hne).
    destruct (map_result_raises float (split viewbox) token ValueError Hin)
      as [e' He'].
    { unfold float. by rewrite Htoken. }
    rewrite He'. cbn. f_equal.
    eapply (map_result_value_error float); [| exact He'].
    apply float_value_error.
Qed.

(** *** Other basic shapes *)

(** The box of a document whose only shape element yields the points
    [p :: ps]. *)
Lemma single_shape_bounds svg_content root pre c post p ps :
  fromstring svg_content = Ok root →
  ET.iter root = pre ++ c :: post →
  Forall (λ e, is_shape e = false) (pre ++ post) →
  path_points c = Ok [] →
  shape_points c = Ok (p :: ps) →
  get_svg_content_bounds svg_content = Ok (points_bounds p ps).
Proof.
  intros Hroot Hiter [Hpre Hpost]%Forall_app Hpath Hshape.
  unfold get_svg_content_bounds. rewrite Hroot. cbn. rewrite Hiter.
  destruct (non_shapes_points pre Hpre) as [Hp1 Hs1].
  destruct (non_shapes_points post Hpost) as [Hp2 Hs2].
  rewrite (collect_app path_points pre (c :: post) [] []); [| done |]; cycle 1.
  { cbn. rewrite Hpath. cbn. by rewrite Hp2. }
  cbn.
  rewrite (collect_app shape_points pre (c :: post) [] (p :: ps)); [done | done |].
  cbn. rewrite Hshape. cbn. rewrite Hs2. cbn. by rewrite app_nil_r.
Qed.

(** X5: for a document whose only shape element is an ellipse of centre
    [(cx, cy)] and radii [rx, ry ≥ 0], the box is
    [(cx − rx, cy − ry, cx + rx, cy + ry)]. *)
Theorem ellipse_bounds svg_content root pre c post cx cy rx ry :
  fromstring svg_content = Ok root →
  ET.iter root = pre ++ c :: post →
  Forall (λ e, is_shape e = false) (pre ++ post) →
  local_tag c = "ellipse" →
  float_attr c "cx" = Ok cx → float_attr c "cy" = Ok cy →
  float_attr c "rx" = Ok rx → float_attr c "ry" = Ok ry →
  0 ≤ rx → 0 ≤ ry →
  get_svg_content_bounds svg_content = Ok (cx - rx, cy - ry, cx + rx, cy + ry).
Proof.
  intros Hroot Hiter Hothers Htag Hx Hy Hrx Hry Hposx Hposy.
  rewrite (single_shape_bounds _ _ _ _ _ (cx - rx, cy - ry)
             [(cx + rx, cy + ry)] Hroot Hiter Hothers).
  - unfold points_bounds, min_from, max_from, min_step, max_step. cbn.
    assert (cx - rx ≤ cx + rx) as Hlex by qc_lra.
    assert (cy - ry ≤ cy + ry) as Hley by qc_lra.
    repeat f_equal.
    + destruct (decide (cx + rx < cx - rx)) as [Hlt | _]; [| done].
      exfalso. by apply (Qcle_not_lt _ _ Hlex).
    + destruct (decide (cy + ry < cy - ry)) as [Hlt | _]; [| done].
      exfalso. by apply (Qcle_not_lt _ _ Hley).
    + destruct (decide (cx - rx < cx + rx)) as [_ | Hge]; [done |].
      apply (anti_symm Qcle); [done | by apply Qcnot_lt_le].
    + destruct (decide (cy - ry < cy + ry)) as [_ | Hge]; [done |].
      apply (anti_symm Qcle); [done | by apply Qcnot_lt_le].
  - apply (path_points_basic_shape c "ellipse" Htag). set_solver.
  - unfold shape_points. by rewrite Htag, Hx, Hy, Hrx, Hry.
Qed.

(** X6: for a document whose only shape element is a line, the box is
    spanned by its two endpoints, in whichever order they are given. *)
Theorem line_bounds svg_content root pre c post x1 y1 x2 y2 :
  fromstring svg_content = Ok root →
  ET.iter root = pre ++ c :: post →
  Forall (λ e, is_shape e = false) (pre ++ post) →
  local_tag c = "line" →
  float_attr c "x1" = Ok x1 → float_attr c "y1" = Ok y1 →
  float_attr c "x2" = Ok x2 → float_attr c "y2" = Ok y2 →
  ∃ min_x min_y max_x max_y,
    get_svg_content_bounds svg_content = Ok (min_x, min_y, max_x, max_y) ∧
    is_min min_x [x1; x2] ∧ is_min min_y [y1; y2] ∧
    is_max max_x [x1; x2] ∧ is_max max_y [y1; y2].
Proof.
  intros Hroot Hiter Hothers Htag Hx1 Hy1 Hx2 Hy2.
  rewrite (single_shape_bounds _ _ _ _ _ (x1, y1) [(x2, y2)]
             Hroot Hiter Hothers).
  - pose proof (points_bounds_spec (x1, y1) [(x2, y2)]) as Hspec.
    destruct (points_bounds (x1, y1) [(x2, y2)]) as [[[min_x min_y] max_x] max_y].
    exists min_x, min_y, max_x, max_y. by split.
  - apply (path_points_basic_shape c "line" Htag). set_solver.
  - unfold shape_points. by rewrite Htag, Hx1, Hy1, Hx2, Hy2.
Qed.

(** *** Namespaces *)

Fixpoint has_brace (s : string) : bool :=
  match s with
  | EmptyString => false
  | String c s' => Ascii.eqb c "}" || has_brace s'
  end.

(** [{ns}name], the tag of an element in the namespace [ns]. *)
Definition qualified (ns name : string) : string :=
  "{" +:+ ns +:+ "}" +:+ name.

Lemma after_last_brace_none s : has_brace s = false → after_last_brace s = None.
Proof.
  induction s as [| c s IH]; [done |]. cbn.
  intros [Hc Hs]%orb_false_iff. by rewrite (IH Hs), Hc.
Qed.

Lemma after_last_brace_suffix q name :
  has_brace name = false →
  after_last_brace (q +:+ String "}" name) = Some name.
Proof.
  intros Hname. induction q as [| c q IH].
  - change (EmptyString +:+ String "}" name) with (String "}" name).
    cbn [after_last_brace]. by rewrite (after_last_brace_none name Hname).
  - change (String c q +:+ String "}" name)
      with (String c (q +:+ String "}" name)).
    cbn [after_last_brace]. by rewrite IH.
Qed.

Lemma has_brace_suffix q name : has_brace (q +:+ String "}" name) = true.
Proof.
  induction q as [| c q IH]; [done |].
  change (String c q +:+ String "}" name)
    with (String c (q +:+ String "}" name)).
  cbn [has_brace]. rewrite IH. apply orb_true_r.
Qed.

Lemma endswith_past_brace q name suf :
  has_brace suf = false →
  endswith (q +:+ String "}" name) suf = endswith name suf.
Proof.
  intros Hsuf.
  assert (∀ t, has_brace t = true → String.eqb t suf = false) as Hneq.
  { intros t Ht. apply String.eqb_neq. intros ->. congruence. }
  induction q as [| c q IH].
  - change (EmptyString +:+ String "}" name) with (String "}" name).
    cbn [endswith]. by rewrite (Hneq (String "}" name)).
  - change (String c q +:+ String "}" name)
      with (String c (q +:+ String "}" name)).
    cbn [endswith]. rewrite IH. rewrite Hneq; [done |].
    cbn. rewrite has_brace_suffix. apply orb_true_r.
Qed.

(** X7: an element whose tag carries a namespace, [{ns}name], is read
    exactly like the element [name] with the same attributes, by both
    loops. *)
Theorem namespace_is_ignored ns name a cs :
  has_brace name = false →
  local_tag (Elem (qualified ns name) a cs) = name ∧
  shape_points (Elem (qualified ns name) a cs) = shape_points (Elem name a cs) ∧
  path_points (Elem (qualified ns name) a cs) = path_points (Elem name a cs).
Proof.
  intros Hname.
  assert (local_tag (Elem (qualified ns name) a cs) = name) as Hq.
  { unfold local_tag, qualified. cbn [ET.tag].
    change ("{" +:+ ns +:+ "}" +:+ name)
      with (String "{" ns +:+ String "}" name).
    by rewrite after_last_brace_suffix. }
  assert (local_tag (Elem name a cs) = name) as Hplain.
  { unfold local_tag. cbn [ET.tag]. by rewrite after_last_brace_none. }
  split; [done |]. split.
  - unfold shape_points. rewrite Hq, Hplain. reflexivity.
  - unfold path_points, qualified. cbn [ET.tag].
    change ("{" +:+ ns +:+ "}" +:+ name)
      with (String "{" ns +:+ String "}" name).
    by rewrite endswith_past_brace.
Qed.

(** *** The document handed to the rasteriser *)

Lemma rendered_size svg_content width height image :
  rendered svg_content width height = Ok image →
  png_width image = width ∧ png_height image = height.
Proof.
  unfold rendered.
  destruct (modified_root svg_content width height) as [root |];
    [| discriminate].
  cbn. apply svg2png_size.
Qed.

(** X9: a call of [svg_to_png] either raises and leaves the world as it
    was, or writes one image of exactly the requested pixel size at
    [output_path], prints one line and touches no other file. *)
Theorem svg_to_png_all_or_nothing svg_path output_path width height
    svg_content w :
  match svg_to_png svg_path output_path width height svg_content w with
  | (w', Raise e) => w' = w
  | (w', Ok _) =>
      ∃ image,
        files w' = <[output_path := PngFile image]> (files w) ∧
        png_width image = width ∧ png_height image = height ∧
        stdout w' = stdout w ++ [MsgGenerated output_path width height]
  end.
Proof.
  rewrite svg_to_png_run.
  destruct (rendered svg_content width height) as [image |] eqn:Himage;
    [| done].
  destruct (rendered_size _ _ _ _ Himage) as [Hw Hh].
  exists image. unfold written. cbn. by rewrite Hw, Hh.
Qed.

(** *** The crop window and the content *)

(** X21: [get_svg_dimensions] returns a square: both numbers are the
    larger of the content width and height. It prints three lines, touches
    no file, and when the extractor raises it raises the same exception
    without printing. *)
Theorem dimensions_are_square svg_content w :
  match get_svg_dimensions svg_content w with
  | (w', Raise e) => w' = w ∧ get_svg_content_bounds svg_content = Raise e
  | (w', Ok (svg_width, svg_height)) =>
      svg_width = svg_height ∧ files w' = files w ∧
      ∃ min_x min_y max_x max_y,
        get_svg_content_bounds svg_content = Ok (min_x, min_y, max_x, max_y) ∧
        max_x - min_x ≤ svg_width ∧ max_y - min_y ≤ svg_width ∧
        (svg_width = max_x - min_x ∨ svg_width = max_y - min_y) ∧
        stdout w' =
          stdout w ++
          [MsgContentBounds min_x min_y max_x max_y;
           MsgContentSize (max_x - min_x) (max_y - min_y);
           MsgSquareBox svg_width]
  end.
Proof.
  unfold get_svg_dimensions, mbind, io_mbind, io_bind, io_lift, io_ret, print.
  destruct (get_svg_content_bounds svg_content)
    as [[[[min_x min_y] max_x] max_y] | e]; [| done].
  cbn [files stdout]. split; [done |]. split; [done |].
  exists min_x, min_y, max_x, max_y. split; [done |].
  destruct (max2_spec (max_x - min_x) (max_y - min_y)) as (Hw & Hh & Hcase).
  do 3 (split; [done |]).
  by rewrite <- !(assoc_L (++)).
Qed.

(** *** Files the entry point leaves alone *)

(** A statement that never changes the file at [path]. *)
Definition keeps_file (path : string) {A} (m : IO A) : Prop :=
  ∀ w, files (m w).1 !! path = files w !! path.

Lemma keeps_ret path {A} (a : A) : keeps_file path (io_ret a).
Proof. by intros w. Qed.

Lemma keeps_lift path {A} (r : result A) : keeps_file path (io_lift r).
Proof. by intros w. Qed.

Lemma keeps_print path m : keeps_file path (print m).
Proof. by intros w. Qed.

Lemma keeps_write path output_path image :
  output_path ≠ path → keeps_file path (write_png output_path image).
Proof. intros Hne w. cbn. by apply lookup_insert_ne. Qed.

Lemma keeps_bind path {A B} (m : IO A) (k : A → IO B) :
  keeps_file path m → (∀ a, keeps_file path (k a)) →
  keeps_file path (m ≫= k).
Proof.
  intros Hm Hk w. unfold mbind, io_mbind, io_bind.
  specialize (Hm w). destruct (m w) as [w' [a | e]]; cbn in *.
  - by rewrite Hk.
  - done.
Qed.

Lemma keeps_try path body handler :
  keeps_file path body → (∀ e, keeps_file path (handler e)) →
  keeps_file path (io_try body handler).
Proof.
  intros Hb Hh w. unfold io_try.
  specialize (Hb w). destruct (body w) as [w' [[] | e]]; cbn in *.
  - done.
  - by rewrite Hh.
Qed.

Lemma keeps_for_each path {A} (l : list A) (body : A → IO unit) :
  (∀ x, x ∈ l → keeps_file path (body x)) →
  keeps_file path (for_each l body).
Proof.
  induction l as [| x l IH]; intros Hbody; cbn [for_each].
  - apply keeps_ret.
  - apply keeps_bind; [apply Hbody; by left |].
    intros _. apply IH. intros y Hy. apply Hbody. by right.
Qed.

Lemma keeps_svg_to_png path svg_path output_path width height svg_content :
  output_path ≠ path →
  keeps_file path (svg_to_png svg_path output_path width height svg_content).
Proof.
  intros Hne. unfold svg_to_png.
  apply keeps_bind; [apply keeps_lift |]. intros root.
  apply keeps_bind; [apply keeps_lift |]. intros png_data.
  apply keeps_bind; [by apply keeps_write |]. intros _. apply keeps_print.
Qed.

Lemma keeps_get_svg_dimensions path svg_content :
  keeps_file path (get_svg_dimensions svg_content).
Proof.
  unfold get_svg_dimensions.
  apply keeps_bind; [apply keeps_lift |]. intros [[[min_x min_y] max_x] max_y].
  do 3 (apply keeps_bind; [apply keeps_print |]; intros _).
  apply keeps_ret.
Qed.

Lemma keeps_main_body path current_dir svg_path svg_content :
  (∀ s, s ∈ target_sizes → png_path current_dir s ≠ path) →
  keeps_file path (main_body current_dir svg_path svg_content).
Proof.
  intros Hne. unfold main_body.
  apply keeps_bind; [apply keeps_get_svg_dimensions |].
  intros [svg_width svg_height].
  apply keeps_bind; [apply keeps_print |]. intros _.
  apply keeps_bind.
  { destruct (decide _); [apply keeps_lift | apply keeps_print]. }
  intros _. apply keeps_bind.
  { apply keeps_for_each. intros s Hs. unfold render_target.
    cbn [calculate_render_size].
    apply keeps_bind; [apply keeps_print |]. intros _.
    apply keeps_svg_to_png. by apply Hne. }
  intros _.
  do 2 (apply keeps_bind; [apply keeps_print |]; intros _).
  apply keeps_for_each. intros s _. apply keeps_print.
Qed.

Lemma main_keeps_other_files current_dir w path :
  (∀ s, s ∈ target_sizes → png_path current_dir s ≠ path) →
  files (main current_dir w).1 !! path = files w !! path.
Proof.
  intros Hne. unfold main.
  destruct (files w !! path_join current_dir "favicon.svg") as [[content | image] |].
  - apply keeps_try; [by apply keeps_main_body |].
    intros e. apply keeps_print.
  - done.
  - done.
Qed.

(** X10: whatever the directory, the document and the collaborators,
    [main] changes no file other than [favicon-32x32.png],
    [favicon-128x128.png] and [favicon-256x256.png] of its directory;
    [favicon.svg] in particular is what it was. *)
Theorem main_touches_only_pngs current_dir w :
  (∀ path,
     path ≠ path_join current_dir "favicon-32x32.png" →
     path ≠ path_join current_dir "favicon-128x128.png" →
     path ≠ path_join current_dir "favicon-256x256.png" →
     files (main current_dir w).1 !! path = files w !! path) ∧
  files (main current_dir w).1 !! path_join current_dir "favicon.svg" =
    files w !! path_join current_dir "favicon.svg".
Proof.
  assert (∀ path,
            path ≠ path_join current_dir "favicon-32x32.png" →
            path ≠ path_join current_dir "favicon-128x128.png" →
            path ≠ path_join current_dir "favicon-256x256.png" →
            files (main current_dir w).1 !! path = files w !! path) as Hkeep.
  { intros path H32 H128 H256. apply main_keeps_other_files.
    unfold target_sizes, png_path. intros s Hs Heq. set_unfold in Hs.
    destruct Hs as [-> | [-> | [-> | []]]].
    - by apply H32.
    - by apply H128.
    - by apply H256. }
  split; [exact Hkeep |].
  apply Hkeep; intros Heq%path_join_inj; discriminate.
Qed.

(** *** A complete run *)

Lemma main_body_completes current_dir svg_path svg_content b w w1 :
  get_svg_content_bounds svg_content = Ok b →
  (let '(min_x, min_y, max_x, max_y) := b in
   max2 (max_x - min_x) (max_y - min_y) ≠ Qc_of_Z 0) →
  (∀ svg_width svg_height,
     for_each target_sizes
       (render_target current_dir svg_path svg_content svg_width svg_height)
       (after_prelude w b) = (w1, Ok tt)) →
  main_body current_dir svg_path svg_content w =
    (mkWorld (files w1)
       (stdout w1 ++ [MsgAllGenerated; MsgGeneratedFiles; MsgFileName 32;
                      MsgFileName 128; MsgFileName 256]), Ok tt).
Proof.
  destruct b as [[[min_x min_y] max_x] max_y]. intros Hb Hsq Hloop.
  unfold main_body, get_svg_dimensions, mbind, io_mbind, io_bind, io_lift,
    io_ret, print.
  rewrite Hb. cbn [files stdout].
  destruct (decide (max2 (max_x - min_x) (max_y - min_y) = Qc_of_Z 0));
    [done |].
  cbn [files stdout]. rewrite <- !(assoc_L (++)). cbn [app].
  unfold after_prelude in Hloop. rewrite Hloop.
  cbn. unfold mbind, io_mbind, io_bind, io_ret. cbn.
  by rewrite <- !(assoc_L (++)).
Qed.

(** The lines one successful round of the loop prints. *)
Definition round_lines (current_dir : string) (images : Z → Png) (s : Z)
  : list message :=
  [MsgRendering s s s;
   MsgGenerated (png_path current_dir s) (png_width (images s))
                (png_height (images s))].

(** The five lines printed before the loop. *)
Definition prelude_lines (b : bounds) : list message :=
  let '(min_x, min_y, max_x, max_y) := b in
  let square_size := max2 (max_x - min_x) (max_y - min_y) in
  [MsgContentBounds min_x min_y max_x max_y;
   MsgContentSize (max_x - min_x) (max_y - min_y);
   MsgSquareBox square_size;
   MsgSvgDimensions (float_str square_size) (float_str square_size);
   MsgAspectRatio (square_size / square_size)].

Lemma stdout_after_sizes current_dir images w sizes :
  stdout (after_sizes current_dir images w sizes) =
    stdout w ++ flat_map (round_lines current_dir images) sizes.
Proof.
  unfold after_sizes. revert w.
  induction sizes as [| s sizes IH]; intros w; cbn [foldl flat_map].
  - by rewrite app_nil_r.
  - rewrite IH. cbn [render_step written printed stdout].
    unfold round_lines. by rewrite <- !app_assoc.
Qed.

Lemma stdout_after_prelude w b :
  stdout (after_prelude w b) = stdout w ++ prelude_lines b.
Proof. by destruct b as [[[? ?] ?] ?]. Qed.

Lemma no_error_in_round current_dir images sizes e :
  MsgErrorProcessing e ∉ flat_map (round_lines current_dir images) sizes.
Proof.
  induction sizes as [| s sizes IH]; cbn [flat_map].
  - apply not_elem_of_nil.
  - unfold round_lines at 1. cbn [app].
    rewrite !not_elem_of_cons. by repeat split.
Qed.

(** X11: when the box has a positive side and every size renders, [main]
    returns normally, each of the three PNG paths holds an image of
    exactly its size in both directions, no error line is printed and the
    output ends with the five summary lines. *)
Theorem main_generates_every_size current_dir w svg_content
    min_x min_y max_x max_y images :
  files w !! path_join current_dir "favicon.svg" = Some (TextFile svg_content) →
  get_svg_content_bounds svg_content = Ok (min_x, min_y, max_x, max_y) →
  max2 (max_x - min_x) (max_y - min_y) ≠ Qc_of_Z 0 →
  (∀ s, s ∈ target_sizes → rendered svg_content s s = Ok (images s)) →
  ∃ w' earlier,
    main current_dir w = (w', Ok tt) ∧
    (∀ s, s ∈ target_sizes →
       files w' !! png_path current_dir s = Some (PngFile (images s)) ∧
       png_width (images s) = s ∧ png_height (images s) = s) ∧
    stdout w' = stdout w ++ earlier ++
                [MsgAllGenerated; MsgGeneratedFiles; MsgFileName 32;
                 MsgFileName 128; MsgFileName 256] ∧
    ∀ e, MsgErrorProcessing e ∉ earlier.
Proof.
  intros Hfile Hb Hsq Hall.
  rewrite (main_run _ _ _ Hfile).
  erewrite main_body_completes; [| exact Hb | exact Hsq |]; cycle 1.
  { intros svg_width svg_height.
    by apply (render_loop_completes _ _ _ _ _ images). }
  eexists _, (prelude_lines (min_x, min_y, max_x, max_y) ++
              flat_map (round_lines current_dir images) target_sizes).
  split; [reflexivity |]. split; [| split].
  - intros s Hs. split; [| by apply (rendered_size svg_content), Hall].
    cbn [files]. apply after_sizes_written; [| done].
    intros s' Hs' Heq. by apply (png_path_inj_targets current_dir).
  - cbn [stdout]. rewrite stdout_after_sizes, stdout_after_prelude.
    by rewrite <- !app_assoc.
  - intros e [He | He]%elem_of_app.
    + cbn in He. rewrite !elem_of_cons in He.
      destruct He as [He | [He | [He | [He | [He | He]]]]];
        try discriminate. by apply elem_of_nil in He.
    + by apply no_error_in_round in He.
Qed.

(** *** Content without extent *)

(** X12: when the box has side zero (all points coincide), the aspect
    ratio divides by zero: [main] prints four lines and the diagnostic,
    returns normally and writes no file. *)
Theorem main_degenerate_content current_dir w svg_content
    min_x min_y max_x max_y :
  files w !! path_join current_dir "favicon.svg" = Some (TextFile svg_content) →
  get_svg_content_bounds svg_content = Ok (min_x, min_y, max_x, max_y) →
  max2 (max_x - min_x) (max_y - min_y) = Qc_of_Z 0 →
  main current_dir w =
    (mkWorld (files w)
       (stdout w ++
        [MsgContentBounds min_x min_y max_x max_y;
         MsgContentSize (max_x - min_x) (max_y - min_y);
         MsgSquareBox (Qc_of_Z 0);
         MsgSvgDimensions (float_str (Qc_of_Z 0)) (float_str (Qc_of_Z 0));
         MsgErrorProcessing ZeroDivisionError]), Ok tt).
Proof.
  intros Hfile Hb Hsq. rewrite (main_run _ _ _ Hfile).
  unfold main_body, get_svg_dimensions, mbind, io_mbind, io_bind, io_lift,
    io_ret, print.
  rewrite Hb. cbn [files stdout]. rewrite Hsq.
  destruct (decide (Qc_of_Z 0 = Qc_of_Z 0)); [| done].
  unfold printed. cbn [files stdout].
  by rewrite <- !(assoc_L (++)).
Qed.

End WithLibs.

End FaviconMore.

(** * More on the GIF resizer *)

Module CompressGifMore.

Import CompressGif CompressGifFacts GifReport.

Section WithPillow.
Context `{Pillow} `{ImageSize}.

Lemma resize_gif_keeps_other_paths input_path output_path max_width
    max_height fs path :
  path ≠ output_path →
  (resize_gif input_path output_path max_width max_height fs).1 !! path =
    fs !! path.
Proof.
  intros Hne. unfold resize_gif.
  destruct (fs !! input_path) as [data |]; [| done].
  destruct (image_open data) as [base_gif |]; [| done].
  destruct (process_frames _ _ _ _) as [[[| first rest] durations] |];
    [done | | done].
  match goal with |- context [encode_gif ?c] => set (call := c) end.
  destruct (encode_gif call) as [bytes |]; cbn.
  - by apply lookup_insert_ne.
  - by apply lookup_partial_alter_ne.
Qed.

(** X13: a run of [resize_gif] changes no path other than
    [output_path]; when it returns normally the input existed and
    [output_path] holds the bytes the encoder returned for its one save
    call. *)
Theorem resize_gif_touches_only_output input_path output_path max_width
    max_height fs :
  (∀ path, path ≠ output_path →
     (resize_gif input_path output_path max_width max_height fs).1 !! path =
       fs !! path) ∧
  ((resize_gif input_path output_path max_width max_height fs).2 = Ok tt →
   ∃ call bytes,
     encode_gif call = Ok bytes ∧ is_Some (fs !! input_path) ∧
     (resize_gif input_path output_path max_width max_height fs).1 =
       <[output_path := bytes]> fs).
Proof.
  unfold resize_gif.
  destruct (fs !! input_path) as [data |]; [| done].
  destruct (image_open data) as [base_gif |]; [| done].
  destruct (process_frames _ _ _ _) as [[[| first rest] durations] |];
    [done | | done].
  match goal with |- context [encode_gif ?c] => set (call := c) end.
  destruct (encode_gif call) as [bytes |] eqn:Hbytes.
  - split.
    + intros path Hne. cbn. by apply lookup_insert_ne.
    + intros _. exists call, bytes. by repeat split.
  - split; [| done].
    intros path Hne. cbn. by apply lookup_partial_alter_ne.
Qed.

Lemma process_frames_raises base_duration max_width max_height pre frame post e :
  Forall (λ f, ∃ palettized, resize_frame max_width max_height f = Ok palettized)
         pre →
  resize_frame max_width max_height frame = Raise e →
  process_frames base_duration max_width max_height (pre ++ frame :: post) =
    Raise e.
Proof.
  intros Hpre Hframe. induction Hpre as [| f pre [p Hp] _ IH]; cbn.
  - by rewrite Hframe.
  - by rewrite Hp, IH.
Qed.

(** X14: the exception of [Image.open], or of the first frame that cannot
    be converted or resized, is the one [resize_gif] raises; the frames
    after it are not looked at and nothing is written. *)
Theorem first_failure_is_raised input_path output_path max_width max_height
    fs data :
  fs !! input_path = Some data →
  (∀ e, image_open data = Raise e →
        resize_gif input_path output_path max_width max_height fs =
          (fs, Raise e)) ∧
  (∀ base_gif pre frame post e,
     image_open data = Ok base_gif →
     gif_frames base_gif = pre ++ frame :: post →
     Forall (λ f, ∃ palettized,
                    resize_frame max_width max_height f = Ok palettized) pre →
     resize_frame max_width max_height frame = Raise e →
     resize_gif input_path output_path max_width max_height fs =
       (fs, Raise e)).
Proof.
  intros Hfile. split.
  - intros e Hopen. unfold resize_gif. by rewrite Hfile, Hopen.
  - intros base_gif pre frame post e Hopen Hframes Hpre Hframe.
    unfold resize_gif. rewrite Hfile, Hopen, Hframes.
    by rewrite (process_frames_raises _ _ _ _ _ _ e Hpre Hframe).
Qed.

(** X15: the save call keeps the timing of the source: the [i]-th
    duration is the one frame [i] declares, else the one the opened image
    declares, else 100; a declared loop count is passed on; the call asks
    for all frames, optimised. *)
Theorem timing_is_preserved input_path output_path max_width max_height fs
    data base_gif first rest :
  fs !! input_path = Some data →
  image_open data = Ok base_gif →
  Forall2 (λ frame palettized,
             resize_frame max_width max_height frame = Ok palettized)
          (gif_frames base_gif) (first :: rest) →
  ∃ call,
    resize_gif input_path output_path max_width max_height fs =
      match encode_gif call with
      | Ok bytes => (<[output_path := bytes]> fs, Ok tt)
      | Raise e =>
          (partial_alter (λ previous, failed_save previous call)
             output_path fs,
           Raise e)
      end ∧
    (∀ i frame, gif_frames base_gif !! i = Some frame →
       duration call !! i =
         Some (match frame_info frame !! "duration" with
               | Some d => d
               | None => match gif_info base_gif !! "duration" with
                         | Some d => d
                         | None => 100
                         end
               end)) ∧
    (∀ n, gif_info base_gif !! "loop" = Some n → loop call = n) ∧
    save_all call = true ∧ optimize call = true.
Proof.
  intros Hfile Hopen Hframes.
  exists (save_call_of base_gif first rest).
  split; [by apply (resize_gif_run _ _ _ _ _ data) |]. cbn.
  split; [| split; [by intros n -> | done]].
  intros i frame Hi. rewrite list_lookup_fmap, Hi. cbn.
  destruct (frame_info frame !! "duration"); [done |].
  by destruct (gif_info base_gif !! "duration").
Qed.

(** *** The report *)

Lemma inspect_found fs path data gif_image :
  fs !! path = Some data → image_open data = Ok gif_image →
  _inspect fs path = Ok (st_size data, image_size gif_image).
Proof. intros Hfile Hopen. unfold _inspect. by rewrite Hfile, Hopen. Qed.

(** X16: [display_size_report] prints its six lines together or not at
    all. A missing original raises [FileNotFoundError]; so does a missing
    resized file once the original was opened; an original that cannot be
    opened raises the decoder's exception before the resized file is
    looked at. *)
Theorem report_all_or_nothing input_path output_path fs stdout :
  match display_size_report input_path output_path fs stdout with
  | (stdout', Raise e) => stdout' = stdout
  | (stdout', Ok _) =>
      ∃ original resized original_image resized_image,
        fs !! input_path = Some original ∧
        fs !! output_path = Some resized ∧
        image_open original = Ok original_image ∧
        image_open resized = Ok resized_image ∧
        stdout' =
          stdout ++
          [LineOriginal input_path;
           LineDimensions (image_size original_image).1
                          (image_size original_image).2;
           LineSize (mebibytes (st_size original));
           LineResized output_path;
           LineDimensions (image_size resized_image).1
                          (image_size resized_image).2;
           LineSize (mebibytes (st_size resized))]
  end ∧
  (fs !! input_path = None →
   display_size_report input_path output_path fs stdout =
     (stdout, Raise FileNotFoundError)) ∧
  (∀ original e, fs !! input_path = Some original →
     image_open original = Raise e →
     display_size_report input_path output_path fs stdout =
       (stdout, Raise e)) ∧
  (∀ original original_image, fs !! input_path = Some original →
     image_open original = Ok original_image →
     fs !! output_path = None →
     display_size_report input_path output_path fs stdout =
       (stdout, Raise FileNotFoundError)).
Proof.
  unfold display_size_report, _inspect. repeat split.
  - destruct (fs !! input_path) as [original |]; [| done].
    destruct (image_open original) as [original_image |] eqn:Ho; [| done].
    cbn. destruct (fs !! output_path) as [resized |]; [| done].
    destruct (image_open resized) as [resized_image |] eqn:Hr; [| done].
    cbn. by exists original, resized, original_image, resized_image.
  - by intros ->.
  - intros original e -> Hopen. by rewrite Hopen.
  - intros original original_image -> Hopen Hout. rewrite Hopen. cbn.
    by rewrite Hout.
Qed.

(** *** The entry point *)

Lemma in_root_inj project_root a b :
  in_root project_root a = in_root project_root b → a = b.
Proof.
  unfold in_root. induction project_root as [| c d IH]; cbn.
  - by intros [= Heq].
  - intros [= Heq]. auto.
Qed.

Lemma original_is_not_resized project_root :
  in_root project_root "retargeting-abit.gif" ≠
  in_root project_root "retargeting-original.gif".
Proof. intros Heq%in_root_inj. discriminate. Qed.

(** X17: [main] never changes a file other than [retargeting-abit.gif]
    (the original in particular), and when the resizing raises, [main]
    raises the same exception without printing a line: the report is not
    run. *)
Theorem gif_main_touches_only_output project_root fs stdout :
  (∀ path, path ≠ in_root project_root "retargeting-abit.gif" →
     (main project_root fs stdout).1.1 !! path = fs !! path) ∧
  (main project_root fs stdout).1.1 !!
    in_root project_root "retargeting-original.gif" =
    fs !! in_root project_root "retargeting-original.gif" ∧
  (∀ e, (resize_gif (in_root project_root "retargeting-original.gif")
           (in_root project_root "retargeting-abit.gif") 360 360 fs).2 =
          Raise e →
        (main project_root fs stdout).1.2 = stdout ∧
        (main project_root fs stdout).2 = Raise e).
Proof.
  pose proof (resize_gif_keeps_other_paths
                (in_root project_root "retargeting-original.gif")
                (in_root project_root "retargeting-abit.gif") 360 360 fs)
    as Hframe.
  assert (∀ path, path ≠ in_root project_root "retargeting-abit.gif" →
            (main project_root fs stdout).1.1 !! path = fs !! path) as Hkeep.
  { intros path Hne. rewrite <- (Hframe path Hne). unfold main.
    destruct (resize_gif _ _ 360 360 fs) as [fs' [[] | e]]; [| done].
    by destruct (display_size_report _ _ fs' stdout). }
  split; [done |]. split.
  - apply Hkeep. intros Heq. by apply (original_is_not_resized project_root).
  - intros e He. unfold main.
    destruct (resize_gif _ _ 360 360 fs) as [fs' [[] | e']]; cbn in *;
      [discriminate |].
    by injection He as ->.
Qed.

(** X18: when the original opens, every frame is resized, the encoder
    returns and its bytes open again, [main] stores those bytes at
    [retargeting-abit.gif] and the report gives the byte counts of the
    original and of what was just written, at 360 by 360. *)
Theorem gif_main_reports_what_it_wrote project_root fs stdout
    data base_gif first rest bytes written_gif :
  fs !! in_root project_root "retargeting-original.gif" = Some data →
  image_open data = Ok base_gif →
  Forall2 (λ frame palettized, resize_frame 360 360 frame = Ok palettized)
          (gif_frames base_gif) (first :: rest) →
  encode_gif (save_call_of base_gif first rest) = Ok bytes →
  image_open bytes = Ok written_gif →
  main project_root fs stdout =
    (<[in_root project_root "retargeting-abit.gif" := bytes]> fs,
     stdout ++
     [LineOriginal (in_root project_root "retargeting-original.gif");
      LineDimensions (image_size base_gif).1 (image_size base_gif).2;
      LineSize (mebibytes (st_size data));
      LineResized (in_root project_root "retargeting-abit.gif");
      LineDimensions (image_size written_gif).1 (image_size written_gif).2;
      LineSize (mebibytes (st_size bytes))],
     Ok tt).
Proof.
  intros Hfile Hopen Hframes Hbytes Hwritten. unfold main.
  rewrite (resize_gif_run _ _ _ _ _ data base_gif first rest Hfile Hopen Hframes).
  rewrite Hbytes. unfold display_size_report.
  rewrite (inspect_found _ _ data base_gif); [| | done]; cycle 1.
  { rewrite lookup_insert_ne by apply original_is_not_resized. done. }
  rewrite (inspect_found _ _ bytes written_gif); [done | | done].
  apply lookup_insert_eq.
Qed.

End WithPillow.

End CompressGifMore.

(** * Further runs on concrete inputs *)

Module MoreExamples.

Import PyStr PyNum PyFacts Favicon FaviconFacts FaviconMore Demo.

Local Open Scope Qc_scope.

(** A rect whose width carries a unit. *)
Definition unit_rect : Element :=
  Elem "rect" (attrs [("x", "1"); ("y", "2"); ("width", "40px"); ("height", "5")]) [].
Definition unit_rect_svg : string :=
  "<svg viewBox='0 0 10 10'><rect x='1' y='2' width='40px' height='5'/></svg>".
Definition unit_rect_root : Element :=
  Elem "svg" (attrs [("viewBox", "0 0 10 10")]) [unit_rect].

(** No shape, and a [viewBox] written with commas. *)
Definition comma_viewbox_svg : string := "<svg viewBox='0,0,100,100'></svg>".
Definition comma_viewbox_root : Element :=
  Elem "svg" (attrs [("viewBox", "0,0,100,100")]) [].

Definition ellipse : Element :=
  Elem "ellipse" (attrs [("cx", "10"); ("cy", "20"); ("rx", "5"); ("ry", "3")]) [].
Definition ellipse_svg : string :=
  "<svg><ellipse cx='10' cy='20' rx='5' ry='3'/></svg>".
Definition ellipse_root : Element := Elem "svg" ∅ [ellipse].

(** A line given from right to left. *)
Definition line : Element :=
  Elem "line" (attrs [("x1", "10"); ("y1", "0"); ("x2", "2"); ("y2", "8")]) [].
Definition line_svg : string :=
  "<svg><line x1='10' y1='0' x2='2' y2='8'/></svg>".
Definition line_root : Element := Elem "svg" ∅ [line].

(** A circle of radius zero. *)
Definition dot : Element :=
  Elem "circle" (attrs [("cx", "5"); ("cy", "5"); ("r", "0")]) [].
Definition dot_svg : string := "<svg><circle cx='5' cy='5' r='0'/></svg>".
Definition dot_root : Element := Elem "svg" ∅ [dot].

Definition more_documents : list (string * Element) :=
  [(unit_rect_svg, unit_rect_root); (comma_viewbox_svg, comma_viewbox_root);
   (ellipse_svg, ellipse_root); (line_svg, line_root); (dot_svg, dot_root);
   (path_svg, path_root); (circle_svg, circle_root)].

Definition more_libs : PyLibs := libs more_documents render_blank.

(** The numbers of a box. *)
Definition box_values_of (b : bounds) : Q * Q * Q * Q :=
  let '(a, b, c, d) := b in (this a, this b, this c, this d).

(** X1 on [path_svg], a path and a polygon: four points are harvested and
    the box is not inverted. *)
Lemma bounds_enclose_points_witness :
  ∃ min_x min_y max_x max_y,
    @get_svg_content_bounds more_libs path_svg =
      Ok (min_x, min_y, max_x, max_y) ∧
    min_x ≤ max_x ∧ min_y ≤ max_y ∧
    box_values_of (min_x, min_y, max_x, max_y) =
      (1 # 1, -40 # 1, 61 # 2, 20 # 1)%Q.
Proof.
  destruct (@bounds_enclose_points more_libs path_svg path_root
              [(Q2Qc 10, Q2Qc 20); (Q2Qc (305 # 10), Q2Qc (-40))]
              [(Q2Qc 1, Q2Qc 2); (Q2Qc 3, Q2Qc 4)])
    as (min_x & min_y & max_x & max_y & Hb & _ & _ & _ & _ & Hx & Hy & _).
  - reflexivity.
  - reflexivity.
  - reflexivity.
  - discriminate.
  - exists min_x, min_y, max_x, max_y. repeat split; try done.
    assert (Ok (min_x, min_y, max_x, max_y) =
              @get_svg_content_bounds more_libs path_svg) as Heq by done.
    vm_compute in Heq. by injection Heq as -> -> -> ->.
Defined.

(** X3 on [unit_rect_svg]: the width [40px] is not a number; the
    [viewBox] of the root is not used as a fallback. *)
Lemma malformed_element_aborts_witness :
  @get_svg_content_bounds more_libs unit_rect_svg = Raise ValueError.
Proof.
  apply (@malformed_element_aborts more_libs unit_rect_svg unit_rect_root
           unit_rect ValueError).
  - reflexivity.
  - right. by left.
  - right. reflexivity.
Defined.

(** X2 on [unit_rect_svg]. *)
Lemma bounds_raise_only_value_error_witness :
  ∃ e, @get_svg_content_bounds more_libs unit_rect_svg = Raise e ∧
       e = ValueError.
Proof.
  exists ValueError. split; [reflexivity |].
  apply (@bounds_raise_only_value_error more_libs unit_rect_svg unit_rect_root).
  - reflexivity.
  - reflexivity.
Defined.

(** X4 on [comma_viewbox_svg]: the attribute is one token. *)
Lemma viewbox_needs_four_numbers_witness :
  @get_svg_content_bounds more_libs comma_viewbox_svg = Raise ValueError.
Proof.
  destruct (@viewbox_needs_four_numbers more_libs comma_viewbox_svg
              comma_viewbox_root "0,0,100,100" eq_refl eq_refl eq_refl eq_refl)
    as (_ & Harity & _).
  apply Harity; [discriminate |]. vm_compute. discriminate.
Defined.

(** X5 on [ellipse_svg]: the box is (5, 17, 15, 23). *)
Lemma ellipse_bounds_witness :
  @get_svg_content_bounds more_libs ellipse_svg =
    Ok (Q2Qc 10 - Q2Qc 5, Q2Qc 20 - Q2Qc 3, Q2Qc 10 + Q2Qc 5, Q2Qc 20 + Q2Qc 3).
Proof.
  apply (@ellipse_bounds more_libs ellipse_svg ellipse_root [ellipse_root]
           ellipse []).
  - reflexivity.
  - reflexivity.
  - repeat constructor.
  - reflexivity.
  - reflexivity.
  - reflexivity.
  - reflexivity.
  - reflexivity.
  - vm_compute. discriminate.
  - vm_compute. discriminate.
Defined.

(** X6 on [line_svg]: the box is (2, 0, 10, 8). *)
Lemma line_bounds_witness :
  ∃ min_x min_y max_x max_y,
    @get_svg_content_bounds more_libs line_svg =
      Ok (min_x, min_y, max_x, max_y) ∧
    is_min min_x [Q2Qc 10; Q2Qc 2] ∧ is_min min_y [Q2Qc 0; Q2Qc 8] ∧
    is_max max_x [Q2Qc 10; Q2Qc 2] ∧ is_max max_y [Q2Qc 0; Q2Qc 8].
Proof.
  apply (@line_bounds more_libs line_svg line_root [line_root] line []).
  - reflexivity.
  - reflexivity.
  - repeat constructor.
  - reflexivity.
  - reflexivity.
  - reflexivity.
  - reflexivity.
  - reflexivity.
Defined.

(** X7 for the SVG namespace. *)
Lemma namespace_is_ignored_witness :
  local_tag (Elem (qualified "http://www.w3.org/2000/svg" "circle")
                  (ET.attrib circle) []) = "circle"%string ∧
  @shape_points more_libs
    (Elem (qualified "http://www.w3.org/2000/svg" "circle")
          (ET.attrib circle) []) =
    @shape_points more_libs (Elem "circle" (ET.attrib circle) []) ∧
  @path_points more_libs
    (Elem (qualified "http://www.w3.org/2000/svg" "circle")
          (ET.attrib circle) []) =
    @path_points more_libs (Elem "circle" (ET.attrib circle) []).
Proof.
  apply (@namespace_is_ignored more_libs "http://www.w3.org/2000/svg" "circle").
  reflexivity.
Defined.

(** The directory of the script for [circle_svg] and for [dot_svg]. *)
Definition circle_site : World :=
  mkWorld {[ "/site/favicon.svg"%string := TextFile circle_svg ]} [].
Definition dot_site : World :=
  mkWorld {[ "/site/favicon.svg"%string := TextFile dot_svg ]} [].

(** X19 on the path data of [path_svg]: two matches, two points. *)
Lemma parse_path_data_points_witness :
  @parse_path_data more_libs "M 10,20 L 30.5 -40 Z" =
    Ok [(Q2Qc 10, Q2Qc 20); (Q2Qc (305 # 10), Q2Qc (-40))].
Proof.
  apply (@parse_path_data_points more_libs "M 10,20 L 30.5 -40 Z").
  repeat constructor; vm_compute; f_equal; apply Qc_is_canon; reflexivity.
Defined.

(** X10 on [circle_site]: the SVG is still there after the run, and a
    PNG of another size was not made. *)
Lemma main_touches_only_pngs_witness :
  files (@main more_libs "/site" circle_site).1 !! "/site/favicon.svg" =
    Some (TextFile circle_svg) ∧
  files (@main more_libs "/site" circle_site).1 !! "/site/favicon-64x64.png" =
    None.
Proof.
  destruct (@main_touches_only_pngs more_libs "/site" circle_site)
    as [Hkeep Hsvg].
  split; [exact Hsvg |].
  by rewrite (Hkeep "/site/favicon-64x64.png"%string).
Defined.

(** X11 on [circle_site]. *)
Lemma main_generates_every_size_witness :
  ∃ w', @main more_libs "/site" circle_site = (w', Ok tt) ∧
        files w' !! png_path "/site" 32 =
          Some (PngFile (mkPng 32 32 EmptyString)) ∧
        files w' !! png_path "/site" 128 =
          Some (PngFile (mkPng 128 128 EmptyString)) ∧
        files w' !! png_path "/site" 256 =
          Some (PngFile (mkPng 256 256 EmptyString)).
Proof.
  destruct (@main_generates_every_size more_libs "/site" circle_site circle_svg
              (Q2Qc 10) (Q2Qc 10) (Q2Qc 90) (Q2Qc 90)
              (λ s, mkPng s s EmptyString))
    as (w' & earlier & Hmain & Hfiles & _).
  - reflexivity.
  - reflexivity.
  - intros Hzero. apply (f_equal this) in Hzero. vm_compute in Hzero.
    discriminate.
  - unfold target_sizes. intros s Hs. set_unfold in Hs.
    destruct Hs as [-> | [-> | [-> | []]]]; reflexivity.
  - exists w'. split; [exact Hmain |].
    unfold target_sizes in Hfiles.
    split; [exact (proj1 (Hfiles 32%Z (list_elem_of_here _ _))) |].
    split; [exact (proj1 (Hfiles 128%Z (list_elem_of_further _ _ _
                                          (list_elem_of_here _ _)))) |].
    exact (proj1 (Hfiles 256%Z (list_elem_of_further _ _ _
                                  (list_elem_of_further _ _ _
                                     (list_elem_of_here _ _))))).
Defined.

(** X12 on [dot_site]: a single point has no extent. *)
Lemma main_degenerate_content_witness :
  ∃ w', @main more_libs "/site" dot_site = (w', Ok tt) ∧
        files w' = files dot_site ∧
        last (stdout w') = Some (MsgErrorProcessing ZeroDivisionError).
Proof.
  eexists. split.
  - apply (@main_degenerate_content more_libs "/site" dot_site dot_svg
             (Q2Qc 5) (Q2Qc 5) (Q2Qc 5) (Q2Qc 5)).
    + reflexivity.
    + reflexivity.
    + apply Qc_is_canon. reflexivity.
  - split; reflexivity.
Defined.

End MoreExamples.

(** * Further runs of the GIF script *)

Module MoreGifExamples.

Import CompressGif CompressGifFacts GifReport CompressGifMore CompressGifExamples.

(** The size of an opened image: the size of its first frame. *)
Definition first_frame_size (gif : Gif) : Z * Z :=
  match gif_frames gif with
  | frame :: _ => (frame_width frame, frame_height frame)
  | [] => (0, 0)
  end.

(** A resampler that refuses a frame without extent. *)
Definition fit_or_fail (frame : Frame) (size : Z * Z) : result Frame :=
  if (frame_width frame =? 0) || (frame_height frame =? 0)
  then Raise ValueError
  else fit frame size.

(** Three frames; the first two declare a duration, the image declares a
    duration of 40 ms and three loops. *)
Definition timed_1 : Frame :=
  mkFrame 720 480 "P" {[ "duration"%string := 40 ]} "a".
Definition timed_2 : Frame :=
  mkFrame 720 480 "P" {[ "duration"%string := 120 ]} "b".
Definition timed_3 : Frame := mkFrame 720 480 "P" ∅ "c".
Definition timed_animation : Gif :=
  mkGif {[ "duration"%string := 40; "loop"%string := 3 ]}
        [timed_1; timed_2; timed_3].

(** Two frames, the second without extent. *)
Definition flat_frame : Frame := mkFrame 720 0 "P" ∅ "flat".
Definition damaged_animation : Gif := mkGif ∅ [frame_1; flat_frame; frame_2].

(** What the stand-in encoder writes for two frames, opened again. *)
Definition reopened : Gif := mkGif ∅ [resized_1; resized_2].

Definition strict_pillow : Pillow := {|
  image_open :=
    open_from [("original"%string, animation); ("timed"%string, timed_animation);
               ("damaged"%string, damaged_animation);
               ("GIF89a 2"%string, reopened)];
  convert_rgba := with_mode "RGBA";
  contain := fit_or_fail;
  convert_adaptive := with_mode "P";
  encode_gif := encode;
  failed_save := λ _ _, None;
|}.

Definition project : gmap string string :=
  {[ "/p/retargeting-original.gif"%string := "original"%string;
     "/p/timed.gif"%string := "timed"%string;
     "/p/damaged.gif"%string := "damaged"%string;
     "/p/notes.txt"%string := "not an image"%string ]}.

(** X14 on [project]: a file that is not an image, and an animation whose
    second frame cannot be resized. *)
Lemma first_failure_is_raised_witness :
  @resize_gif strict_pillow "/p/notes.txt" "/p/out.gif" 360 360 project =
    (project, Raise UnidentifiedImageError) ∧
  @resize_gif strict_pillow "/p/damaged.gif" "/p/out.gif" 360 360 project =
    (project, Raise ValueError).
Proof.
  split.
  - destruct (@first_failure_is_raised strict_pillow "/p/notes.txt" "/p/out.gif"
                360 360 project "not an image" eq_refl) as [Hopen _].
    by apply Hopen.
  - destruct (@first_failure_is_raised strict_pillow "/p/damaged.gif"
                "/p/out.gif" 360 360 project "damaged" eq_refl) as [_ Hframe].
    apply (Hframe damaged_animation [frame_1] flat_frame [frame_2]).
    + reflexivity.
    + reflexivity.
    + repeat constructor. by eexists.
    + reflexivity.
Defined.

Definition timed_resized : list Frame :=
  [mkFrame 360 240 "P" {[ "duration"%string := 40 ]} "a";
   mkFrame 360 240 "P" {[ "duration"%string := 120 ]} "b";
   mkFrame 360 240 "P" ∅ "c"].

(** X15 on [timed_animation]: the durations are 40, 120 and the 40 of the
    image; the loop count is 3. *)
Lemma timing_is_preserved_witness :
  ∃ call,
    @resize_gif strict_pillow "/p/timed.gif" "/p/out.gif" 360 360 project =
      match @encode_gif strict_pillow call with
      | Ok bytes => (<["/p/out.gif"%string := bytes]> project, Ok tt)
      | Raise e =>
          (partial_alter (λ previous, @failed_save strict_pillow previous call)
             "/p/out.gif" project,
           Raise e)
      end ∧
    duration call !! 0%nat = Some 40 ∧
    duration call !! 1%nat = Some 120 ∧
    duration call !! 2%nat = Some 40 ∧
    loop call = 3.
Proof.
  destruct (@timing_is_preserved strict_pillow "/p/timed.gif" "/p/out.gif"
              360 360 project "timed" timed_animation
              (mkFrame 360 240 "P" {[ "duration"%string := 40 ]} "a")
              [mkFrame 360 240 "P" {[ "duration"%string := 120 ]} "b";
               mkFrame 360 240 "P" ∅ "c"])
    as (call & Hrun & Hduration & Hloop & _).
  - reflexivity.
  - reflexivity.
  - repeat constructor.
  - exists call. split; [exact Hrun |].
    split; [exact (Hduration 0%nat timed_1 eq_refl) |].
    split; [exact (Hduration 1%nat timed_2 eq_refl) |].
    split; [exact (Hduration 2%nat timed_3 eq_refl) |].
    by apply Hloop.
Defined.

(** X18 on [project]: the report gives 8 bytes for both files and the
    sizes 720 by 480 and 360 by 240. *)
Lemma gif_main_reports_what_it_wrote_witness :
  @main strict_pillow first_frame_size "/p" project [] =
    (<["/p/retargeting-abit.gif"%string := "GIF89a 2"%string]> project,
     [LineOriginal "/p/retargeting-original.gif";
      LineDimensions 720 480;
      LineSize (mebibytes 8);
      LineResized "/p/retargeting-abit.gif";
      LineDimensions 360 240;
      LineSize (mebibytes 8)],
     Ok tt).
Proof.
  apply (@gif_main_reports_what_it_wrote strict_pillow first_frame_size "/p"
           project [] "original" animation resized_1 [resized_2]
           "GIF89a 2" reopened).
  - reflexivity.
  - reflexivity.
  - repeat constructor.
  - reflexivity.
  - reflexivity.
Defined.

End MoreGifExamples.

(** * The coordinate pattern and [float]

    With the scanner for the coordinate pattern and the decimal reader of
    [Demo], every group the pattern captures is a literal [float] reads. *)

Module ScannerFacts.

Import PyStr Favicon Demo.

(** A run of digits, not empty. *)
Definition digits (ds : list ascii) : Prop :=
  ds ≠ [] ∧ Forall (λ c, is_digit c = true) ds.

(** [rest] does not go on with a digit. *)
Definition stops (rest : list ascii) : Prop :=
  match rest with
  | [] => True
  | c :: _ => is_digit c = false
  end.

(** The texts [-?\d+(?:\.\d+)?] matches. *)
Inductive number_text : list ascii → Prop :=
  | number_int sign ip :
      sign = [] ∨ sign = ["-"%char] → digits ip →
      number_text (sign ++ ip)
  | number_frac sign ip fp :
      sign = [] ∨ sign = ["-"%char] → digits ip → digits fp →
      number_text (sign ++ ip ++ "."%char :: fp).

Lemma span_digits_spec s :
  let '(ds, rest) := span_digits s in
  Forall (λ c, is_digit c = true) ds ∧ s = ds ++ rest ∧ stops rest.
Proof.
  induction s as [| c s IH]; cbn; [done |].
  destruct (is_digit c) eqn:Hc.
  - destruct (span_digits s) as [ds rest]. destruct IH as (Hds & -> & Hstop).
    repeat split; [by constructor | done].
  - repeat split; [constructor | done].
Qed.

Lemma span_digits_app ds rest :
  Forall (λ c, is_digit c = true) ds → stops rest →
  span_digits (ds ++ rest) = (ds, rest).
Proof.
  intros Hds Hstop. induction Hds as [| c ds Hc _ IH]; cbn [app span_digits].
  - destruct rest as [| c rest]; [done |]. cbn [stops] in Hstop.
    cbn [span_digits]. by rewrite Hstop.
  - by rewrite Hc, IH.
Qed.

Lemma digit_is_no_sign c :
  is_digit c = true →
  Ascii.eqb c "-" = false ∧ Ascii.eqb c "+" = false ∧ Ascii.eqb c "." = false.
Proof.
  intros Hc. repeat split; apply Ascii.eqb_neq; intros ->; discriminate.
Qed.

Lemma unsigned_decimal_int ip :
  digits ip → is_Some (unsigned_decimal ip).
Proof.
  intros [Hne Hds]. unfold unsigned_decimal.
  rewrite <- (app_nil_r ip) at 1. rewrite (span_digits_app ip []) by done.
  destruct ip; [done | by eexists].
Qed.

Lemma unsigned_decimal_frac ip fp :
  digits ip → digits fp → is_Some (unsigned_decimal (ip ++ "."%char :: fp)).
Proof.
  intros [Hne Hds] [Hnef Hfs]. unfold unsigned_decimal.
  rewrite (span_digits_app ip ("."%char :: fp)) by done.
  destruct ip as [| d ip]; [done |]. cbn [Ascii.eqb].
  replace (Ascii.eqb "." ".") with true by reflexivity.
  rewrite <- (app_nil_r fp) at 1. rewrite (span_digits_app fp []) by done.
  destruct fp; [done | by eexists].
Qed.

Lemma unsigned_decimal_head c s :
  is_Some (unsigned_decimal (c :: s)) → is_digit c = true.
Proof.
  unfold unsigned_decimal. cbn [span_digits].
  destruct (is_digit c); [done |]. by intros [? [=]].
Qed.

(** [float] reads every text the number pattern matches. *)
Lemma decimal_number_text txt :
  number_text txt → is_Some (decimal (string_of_list_ascii txt)).
Proof.
  intros Htxt. unfold decimal. rewrite list_ascii_of_string_of_list_ascii.
  assert (∀ body, is_Some (unsigned_decimal body) →
            is_Some (match body with
                     | c :: s' =>
                         if Ascii.eqb c "-"
                         then (λ q, Q2Qc (Qopp q)) <$> unsigned_decimal s'
                         else if Ascii.eqb c "+"
                              then Q2Qc <$> unsigned_decimal s'
                              else Q2Qc <$> unsigned_decimal (c :: s')
                     | [] => None
                     end)) as Hplain.
  { intros [| c s'] Hbody; [by destruct Hbody |].
    destruct (digit_is_no_sign c (unsigned_decimal_head c s' Hbody))
      as (-> & -> & _).
    destruct Hbody as [q ->]. by eexists. }
  assert (∀ body, is_Some (unsigned_decimal body) →
            is_Some ((λ q, Q2Qc (Qopp q)) <$> unsigned_decimal body)) as Hneg.
  { intros body [q ->]. by eexists. }
  destruct Htxt as [sign ip [-> | ->] Hip | sign ip fp [-> | ->] Hip Hfp];
    cbn [app].
  - by apply Hplain, unsigned_decimal_int.
  - replace (Ascii.eqb "-" "-") with true by reflexivity.
    by apply Hneg, unsigned_decimal_int.
  - by apply Hplain, unsigned_decimal_frac.
  - replace (Ascii.eqb "-" "-") with true by reflexivity.
    by apply Hneg, unsigned_decimal_frac.
Qed.

Lemma scan_number_text s txt rest :
  scan_number s = Some (txt, rest) → number_text txt.
Proof.
  unfold scan_number.
  set (split := match s with
                | c :: s' => if Ascii.eqb c "-" then ([c], s') else ([], s)
                | [] => ([], s)
                end).
  assert (split.1 = [] ∨ split.1 = ["-"%char]) as Hsign.
  { subst split. destruct s as [| c s']; [by left |].
    destruct (Ascii.eqb_spec c "-") as [-> | _]; [by right | by left]. }
  destruct split as [sign s1]. cbn in Hsign.
  pose proof (span_digits_spec s1) as Hspan.
  destruct (span_digits s1) as [ip after]. destruct Hspan as (Hip & _ & _).
  destruct ip as [| d ip]; [discriminate |].
  assert (digits (d :: ip)) as Hdigits by done.
  destruct after as [| c s2].
  { intros [= <- <-]. by apply number_int. }
  destruct (Ascii.eqb_spec c ".") as [-> | _].
  - pose proof (span_digits_spec s2) as Hspan2.
    destruct (span_digits s2) as [fp s3]. destruct Hspan2 as (Hfp & _ & _).
    destruct fp as [| f fp].
    + intros [= <- <-]. by apply number_int.
    + intros [= <- <-]. by apply (number_frac sign (d :: ip) (f :: fp)).
  - intros [= <- <-]. by apply number_int.
Qed.

Lemma match_coordinates_floats s n1 n2 len :
  match_coordinates s = Some (n1, n2, len) →
  is_Some (decimal n1) ∧ is_Some (decimal n2).
Proof.
  unfold match_coordinates.
  destruct (scan_number s) as [[t1 s1] |] eqn:H1; [| discriminate]. cbn.
  destruct (bool_decide _); [discriminate |].
  destruct (scan_number (skip_separators s1)) as [[t2 s3] |] eqn:H2;
    [| discriminate]. cbn.
  intros [= <- <- <-].
  split; apply decimal_number_text; by eapply scan_number_text.
Qed.

Lemma findall_from_floats skip s :
  Forall (λ m : string * string, is_Some (decimal m.1) ∧ is_Some (decimal m.2))
         (findall_from skip s).
Proof.
  revert skip. induction s as [| c s IH]; intros skip; cbn [findall_from].
  - constructor.
  - destruct skip as [| k]; [| apply IH].
    destruct (match_coordinates (c :: s)) as [[[n1 n2] len] |] eqn:Hm;
      [| apply IH].
    constructor; [| apply IH]. by eapply match_coordinates_floats.
Qed.

(** With this scanner and this reader, [parse_path_data] never raises: it
    returns one point for each match of the coordinate pattern. *)
Lemma demo_parse_path_data_returns docs render path_data :
  ∃ points,
    @parse_path_data (libs docs render) path_data = Ok points ∧
    length points =
      length (findall_coordinates
                (collapse_spaces false (PyStr.strip path_data))).
Proof.
  unfold parse_path_data. cbn [re_sub_spaces re_findall_coordinates libs].
  unfold findall_coordinates.
  generalize (findall_from_floats 0
                (list_ascii_of_string
                   (collapse_spaces false (PyStr.strip path_data)))).
  generalize (findall_from 0
                (list_ascii_of_string
                   (collapse_spaces false (PyStr.strip path_data)))).
  intros matches Hall. induction Hall as [| [n1 n2] matches [[x Hx] [y Hy]] _ IH].
  - by exists [].
  - destruct IH as (points & Hpoints & Hlen).
    exists ((x, y) :: points). cbn [map_result fst snd].
    assert (∀ s v, decimal s = Some v → @float (libs docs render) s = Ok v)
      as Hfloat.
    { intros s v Hs. unfold float. cbn [float_of_string libs]. by rewrite Hs. }
    cbn [fst snd] in Hx, Hy.
    rewrite (Hfloat n1 x Hx), (Hfloat n2 y Hy).
    cbn [mbind result_bind mret result_ret]. rewrite Hpoints.
    cbn [mbind result_bind length]. by rewrite Hlen.
Qed.

End ScannerFacts.
